(** * FormSG conditional-logic engine: a shallow embedding

    The development embeds the logic module of the form builder
    (the condition evaluator [isConditionFulfilled], the logic grouping index
    [groupLogicUnitsByField], the visibility resolver [getVisibleFieldIds] and
    the submission gate [getLogicUnitPreventingSubmit]) together with the
    checkbox type guards of [logic-utils], and proves properties of them.

    Conventions of the embedding.
    - A JavaScript string is a [string]; each character stands for one UTF-16
      code unit below 256.
    - A JavaScript number is [NaN], an infinity, or a decimal [m * 10^e].  Every
      IEEE-754 double is such a decimal; the rounding done when a literal of
      more than 15 significant digits is read is not modelled.
    - A field id is the string that [String(_id)] yields.  Ids are assumed not
      to name a property of [Object.prototype], so that a lookup in the plain
      object used as the index is a lookup in a finite map.
    - A JavaScript [Set] of ids is a [gset string]; the plain object used as a
      dictionary is a [gmap string _]. *)

From Stdlib Require Import ZArith List Bool Ascii String DecimalString Permutation Sorted.
From stdpp Require Import base option list strings gmap fin_sets.

Import ListNotations.
Local Open Scope string_scope.
Local Open Scope list_scope.

(** ** The JavaScript values the module handles *)

Module Js.
Local Open Scope Z_scope.

(** Numbers: [Finite m e] is [m * 10^e]. *)
Inductive JsNumber : Type :=
| NaN
| Infinity (negative : bool)
| Finite (m e : Z).

(** The union of the shapes that a condition value or a current answer takes:
    [undefined], [null], booleans, numbers, strings, arrays and plain objects.
    An object is given by its own properties [options] and [others], the only
    ones the module reads; each of the two may be absent. *)
#[warnings="-register-all"] Inductive JsValue : Type :=
| JsUndefined
| JsNull
| JsBoolean (b : bool)
| JsNum (n : JsNumber)
| JsString (s : string)
| JsArray (xs : list JsValue)
| JsObject (options others : option JsValue).

(** [{ options, others }] of type [CheckboxConditionValue]
    ([shared/types/form/form_logic]): an array of strings and a boolean. *)
Definition CheckboxConditionValue (options : list string) (others : bool) : JsValue :=
  JsObject (Some (JsArray (map JsString options))) (Some (JsBoolean others)).

(** *** Number comparison *)

Definition scale (m e base : Z) : Z := m * 10 ^ (e - base).

(** [a <= b] on numbers; any comparison with [NaN] is false. *)
Definition num_le (a b : JsNumber) : bool :=
  match a, b with
  | NaN, _ | _, NaN => false
  | Infinity true, _ => true
  | _, Infinity false => true
  | Infinity false, _ => false
  | _, Infinity true => false
  | Finite m1 e1, Finite m2 e2 =>
      let base := Z.min e1 e2 in
      scale m1 e1 base <=? scale m2 e2 base
  end.

Definition num_ge (a b : JsNumber) : bool := num_le b a.

(** [a === b] on numbers, extended as lodash's [eq] does: [NaN] equals [NaN]. *)
Definition num_eq (a b : JsNumber) : bool :=
  match a, b with
  | NaN, NaN => true
  | _, _ => num_le a b && num_le b a
  end.

(** *** Number to string ([Number::toString], radix 10) *)

Definition digitsOf (n : Z) : string :=
  NilZero.string_of_uint (N.to_uint (Z.abs_N n)).

Fixpoint zeros (n : nat) : string :=
  match n with
  | O => EmptyString
  | S k => String "0" (zeros k)
  end.

(** Drops the trailing zeros of a non-zero mantissa, raising the exponent. *)
Fixpoint stripZeros (fuel : nat) (m e : Z) : Z * Z :=
  match fuel with
  | O => (m, e)
  | S k => if (m mod 10 =? 0) && negb (m =? 0)
           then stripZeros k (m / 10) (e + 1)
           else (m, e)
  end.

Definition takeStr (n : nat) (s : string) : string := substring 0 n s.
Definition dropStr (n : nat) (s : string) : string :=
  substring n (String.length s - n) s.

Definition numToString (x : JsNumber) : string :=
  match x with
  | NaN => "NaN"
  | Infinity false => "Infinity"
  | Infinity true => "-Infinity"
  | Finite m e =>
      if m =? 0 then "0" else
      let '(m', e') := stripZeros (String.length (digitsOf m)) (Z.abs m) e in
      let ds := digitsOf m' in
      let k := Z.of_nat (String.length ds) in
      let n := k + e' in
      let sign := if m <? 0 then "-" else EmptyString in
      sign +:+
      (if (k <=? n) && (n <=? 21) then
         ds +:+ zeros (Z.to_nat (n - k))
       else if (0 <? n) && (n <=? 21) then
         takeStr (Z.to_nat n) ds +:+ "." +:+ dropStr (Z.to_nat n) ds
       else if (-6 <? n) && (n <=? 0) then
         "0." +:+ zeros (Z.to_nat (- n)) +:+ ds
       else
         let ex := (if n - 1 <? 0 then "-" else "+") +:+ digitsOf (n - 1) in
         if k =? 1 then ds +:+ "e" +:+ ex
         else takeStr 1 ds +:+ "." +:+ dropStr 1 ds +:+ "e" +:+ ex)
  end.

(** *** String to number ([StringToNumber]) *)

Definition isWhiteSpace (c : ascii) : bool :=
  let n := nat_of_ascii c in
  ((9 <=? n) && (n <=? 13) || (n =? 32) || (n =? 160))%nat.

Fixpoint trimStart (s : string) : string :=
  match s with
  | String c rest => if isWhiteSpace c then trimStart rest else s
  | EmptyString => EmptyString
  end.

Fixpoint trimEnd (s : string) : string :=
  match s with
  | EmptyString => EmptyString
  | String c rest =>
      match trimEnd rest with
      | EmptyString => if isWhiteSpace c then EmptyString else String c EmptyString
      | rest' => String c rest'
      end
  end.

Definition trim (s : string) : string := trimEnd (trimStart s).

Definition digitValue (c : ascii) : option Z :=
  let n := Z.of_nat (nat_of_ascii c) in
  if (48 <=? n) && (n <=? 57) then Some (n - 48)
  else if (97 <=? n) && (n <=? 102) then Some (n - 87)
  else if (65 <=? n) && (n <=? 70) then Some (n - 55)
  else None.

(** Reads a non-empty run of digits of the given radix. *)
Fixpoint parseDigitsFrom (radix acc : Z) (s : string) : option Z :=
  match s with
  | EmptyString => Some acc
  | String c rest =>
      match digitValue c with
      | Some d => if d <? radix then parseDigitsFrom radix (acc * radix + d) rest
                  else None
      | None => None
      end
  end.

Definition parseDigits (radix : Z) (s : string) : option Z :=
  match s with
  | EmptyString => None
  | _ => parseDigitsFrom radix 0 s
  end.

(** Splits at the first character satisfying [p]. *)
Fixpoint splitAt (p : ascii -> bool) (s : string) : string * option string :=
  match s with
  | EmptyString => (EmptyString, None)
  | String c rest =>
      if p c then (EmptyString, Some rest)
      else let '(a, b) := splitAt p rest in (String c a, b)
  end.

Definition isExpMark (c : ascii) : bool :=
  (Ascii.eqb c "e" || Ascii.eqb c "E")%char.
Definition isDot (c : ascii) : bool := Ascii.eqb c "."%char.

Definition parseSigned (s : string) : option Z :=
  match s with
  | String "+" rest => parseDigits 10 rest
  | String "-" rest => Z.opp <$> parseDigits 10 rest
  | _ => parseDigits 10 s
  end.

(** [StrUnsignedDecimalLiteral] other than [Infinity]. *)
Definition parseUnsignedDecimal (s : string) : JsNumber :=
  let '(mant, ex) := splitAt isExpMark s in
  let '(ip, fp) := splitAt isDot mant in
  let fp := default EmptyString fp in
  let exponent := match ex with
                  | None => Some 0
                  | Some t => parseSigned t
                  end in
  let mantissa := match ip, fp with
                  | EmptyString, EmptyString => None
                  | _, _ => parseDigitsFrom 10 0 (ip +:+ fp)
                  end in
  match mantissa, exponent with
  | Some m, Some e => Finite m (e - Z.of_nat (String.length fp))
  | _, _ => NaN
  end.

Definition negate (x : JsNumber) : JsNumber :=
  match x with
  | NaN => NaN
  | Infinity b => Infinity (negb b)
  | Finite m e => Finite (- m) e
  end.

Definition parseDecimal (s : string) : JsNumber :=
  let unsigned t := if String.eqb t "Infinity" then Infinity false
                    else parseUnsignedDecimal t in
  match s with
  | String "+" rest => unsigned rest
  | String "-" rest => negate (unsigned rest)
  | _ => unsigned s
  end.

Definition ofRadix (radix : Z) (s : string) : JsNumber :=
  match parseDigits radix s with
  | Some n => Finite n 0
  | None => NaN
  end.

Definition stringToNumber (s : string) : JsNumber :=
  match trim s with
  | EmptyString => Finite 0 0
  | String "0" (String "x" rest) | String "0" (String "X" rest) => ofRadix 16 rest
  | String "0" (String "o" rest) | String "0" (String "O" rest) => ofRadix 8 rest
  | String "0" (String "b" rest) | String "0" (String "B" rest) => ofRadix 2 rest
  | t => parseDecimal t
  end.

(** *** Coercions of values *)

Definition joinWith (sep : string) (parts : list string) : string :=
  match parts with
  | [] => EmptyString
  | p :: ps => fold_left (fun acc q => acc +:+ sep +:+ q) ps p
  end.

(** [String(v)]: an array is joined with commas, its [null] and [undefined]
    elements printing as the empty string; any plain object prints as
    [[object Object]]. *)
Fixpoint ToString (v : JsValue) : string :=
  match v with
  | JsUndefined => "undefined"
  | JsNull => "null"
  | JsBoolean b => if b then "true" else "false"
  | JsNum n => numToString n
  | JsString s => s
  | JsArray xs =>
      joinWith ","
        ((fix elems (l : list JsValue) : list string :=
            match l with
            | [] => []
            | JsUndefined :: l' | JsNull :: l' => EmptyString :: elems l'
            | x :: l' => ToString x :: elems l'
            end) xs)
  | JsObject _ _ => "[object Object]"
  end.

(** [Number(v)]: arrays and objects go through their string form. *)
Definition ToNumber (v : JsValue) : JsNumber :=
  match v with
  | JsUndefined => NaN
  | JsNull => Finite 0 0
  | JsBoolean b => if b then Finite 1 0 else Finite 0 0
  | JsNum n => n
  | JsString s => stringToNumber s
  | JsArray _ | JsObject _ _ => stringToNumber (ToString v)
  end.

(** [typeof v === 'number'] *)
Definition isNumber (v : JsValue) : bool :=
  match v with JsNum _ => true | _ => false end.

(** [typeof v === 'string'] *)
Definition isString (v : JsValue) : bool :=
  match v with JsString _ => true | _ => false end.

(** [typeof v === 'boolean'] *)
Definition isBoolean (v : JsValue) : bool :=
  match v with JsBoolean _ => true | _ => false end.

(** [Array.isArray(v)] *)
Definition isArray (v : JsValue) : bool :=
  match v with JsArray _ => true | _ => false end.

(** The own property [name] of [v], when [v] is an object that has it. *)
Definition getOwn (v : JsValue) (name : string) : option JsValue :=
  match v with
  | JsObject options others =>
      if String.eqb name "options" then options
      else if String.eqb name "others" then others
      else None
  | _ => None
  end.

(** [v[name]], read on a value known to be an object. *)
Definition get (v : JsValue) (name : string) : JsValue :=
  default JsUndefined (getOwn v name).

(** The elements over which the array methods of [v] range. *)
Definition elements (v : JsValue) : list JsValue :=
  match v with JsArray xs => xs | _ => [] end.

(** [[].concat(v)]: the elements of an array, or the value itself. *)
Definition concat (v : JsValue) : list JsValue :=
  match v with JsArray xs => xs | _ => [v] end.

(** *** lodash *)

(** [isEmpty]: strings and arrays by their length, objects by their own keys;
    [null], [undefined], booleans and numbers have no own enumerable keys and
    count as empty. *)
Definition isEmpty (v : JsValue) : bool :=
  match v with
  | JsUndefined | JsNull | JsBoolean _ | JsNum _ => true
  | JsString s => String.eqb s EmptyString
  | JsArray xs => match xs with [] => true | _ => false end
  | JsObject None None => true
  | JsObject _ _ => false
  end.

(** [isEqual]: deep equality; two objects are equal when they have the same
    own keys with equal values. *)
Fixpoint isEqual (a b : JsValue) : bool :=
  match a, b with
  | JsUndefined, JsUndefined => true
  | JsNull, JsNull => true
  | JsBoolean x, JsBoolean y => Bool.eqb x y
  | JsNum x, JsNum y => num_eq x y
  | JsString x, JsString y => String.eqb x y
  | JsArray xs, JsArray ys =>
      (fix all2 (l : list JsValue) (r : list JsValue) : bool :=
         match l, r with
         | [], [] => true
         | x :: l', y :: r' => isEqual x y && all2 l' r'
         | _, _ => false
         end) xs ys
  | JsObject o1 t1, JsObject o2 t2 =>
      match o1, o2 with
      | Some x, Some y => isEqual x y
      | None, None => true
      | _, _ => false
      end
      && match t1, t2 with
         | Some x, Some y => isEqual x y
         | None, None => true
         | _, _ => false
         end
  | _, _ => false
  end.

(** *** [Array.prototype.sort] with the default comparison

    [undefined] elements go last; the others are ordered by the code units of
    their string forms.  The sort is stable, as is insertion from the right. *)
Definition sortLe (x y : JsValue) : bool :=
  match x, y with
  | _, JsUndefined => true
  | JsUndefined, _ => false
  | _, _ => String.leb (ToString x) (ToString y)
  end.

Fixpoint insertSorted (x : JsValue) (l : list JsValue) : list JsValue :=
  match l with
  | [] => [x]
  | y :: l' => if sortLe x y then x :: l else y :: insertSorted x l'
  end.

Definition sort (l : list JsValue) : list JsValue :=
  fold_right insertSorted [] l.

End Js.

(** ** Types of the form, its logic and the answers *)

Module BasicField.
(** Modelled from the spec: the [BasicField] enumeration is declared in
    [types], outside the sources at hand.  Its seven members named by
    [LOGIC_CONDITIONS] are constructors; [Other tag] is any other member
    (text-like, email, attachment, table, ...). *)
Inductive t : Type :=
| Checkbox | Dropdown | Number | Decimal | Rating | YesNo | Radio
| Other (tag : string).

#[global] Instance eq_dec : EqDecision t.
Proof. solve_decision. Defined.
End BasicField.

Module LogicConditionState.
(** Modelled from the spec: the operators of a condition,
    [Equal | Either | AnyOf | Lte | Gte]; the enumeration is declared in
    [types]. *)
Inductive t : Type := Equal | Either | AnyOf | Lte | Gte.

#[global] Instance eq_dec : EqDecision t.
Proof. solve_decision. Defined.
End LogicConditionState.

Module LogicType.
(** Modelled from the spec: the two kinds of logic unit,
    [ShowFields | PreventSubmit]; the enumeration is declared in [types]. *)
Inductive t : Type := ShowFields | PreventSubmit.

#[global] Instance eq_dec : EqDecision t.
Proof. solve_decision. Defined.
End LogicType.

(** Modelled from the spec: [IConditionSchema], a condition
    [{ field, state, value }]; [field] holds [String(condition.field)]. *)
Record IConditionSchema : Type := mkCondition {
  field : string;
  state : LogicConditionState.t;
  value : Js.JsValue
}.

(** Modelled from the spec: [ILogicSchema], one authored rule.  [show] is read
    only on [ShowFields] units and holds the [String] form of each target. *)
Record ILogicSchema : Type := mkLogic {
  logicType : LogicType.t;
  conditions : list IConditionSchema;
  show : list string
}.

(** Modelled from the spec: an entry of [form.form_fields]. *)
Record IFieldSchema : Type := mkField {
  field_id : string;
  field_fieldType : BasicField.t
}.

(** Modelled from the spec: [IFormDocument]; [_id], [form_fields] and
    [form_logics] may each be absent. *)
Record IFormDocument : Type := mkForm {
  form_id : option string;
  form_fields : option (list IFieldSchema);
  form_logics : option (list ILogicSchema)
}.

(** [LogicFieldSchemaOrResponse]: an entry of the submission, a client field
    (property [fieldValue]) or a server response (property [answer] or
    [answerArray]).  A property is [None] when the object does not have it. *)
Record LogicFieldSchemaOrResponse : Type := mkResponse {
  _id : string;
  fieldType : BasicField.t;
  fieldValue : option Js.JsValue;
  answer : option Js.JsValue;
  answerArray : option Js.JsValue
}.

Abbreviation GroupedLogic := (gmap string (list (list IConditionSchema))).
Abbreviation FieldIdSet := (gset string).

(** ** logic-utils: the checkbox type guards *)

(** Modelled from the spec: [hasProp] of [has-prop] is not among the sources;
    it is the test that the value is an object with the property, which the
    guard "is itself a [CheckboxConditionValue]" relies on. *)
Definition hasProp (value : Js.JsValue) (prop : string) : bool :=
  match Js.getOwn value prop with Some _ => true | None => false end.

Definition isCheckboxConditionValue (value : Js.JsValue) : bool :=
  let hasValue :=
    hasProp value "options"
    && Js.isArray (Js.get value "options")
    && forallb Js.isString (Js.elements (Js.get value "options")) in
  let hasOthers :=
    hasProp value "others" && Js.isBoolean (Js.get value "others") in
  hasValue && hasOthers.

Definition isLogicCheckboxCondition (condition : IConditionSchema) : bool :=
  Js.isArray (value condition) &&
  forallb isCheckboxConditionValue (Js.elements (value condition)).

(** ** The operator-applicability table *)

Definition LOGIC_CONDITIONS : list (BasicField.t * list LogicConditionState.t) :=
  [ (BasicField.Checkbox, [LogicConditionState.AnyOf]);
    (BasicField.Dropdown, [LogicConditionState.Equal; LogicConditionState.Either]);
    (BasicField.Number,
      [LogicConditionState.Equal; LogicConditionState.Lte; LogicConditionState.Gte]);
    (BasicField.Decimal,
      [LogicConditionState.Equal; LogicConditionState.Lte; LogicConditionState.Gte]);
    (BasicField.Rating,
      [LogicConditionState.Equal; LogicConditionState.Lte; LogicConditionState.Gte]);
    (BasicField.YesNo, [LogicConditionState.Equal]);
    (BasicField.Radio, [LogicConditionState.Equal; LogicConditionState.Either]) ].

(** [new Map(LOGIC_CONDITIONS)]; the keys of the entries are distinct. *)
Module LOGIC_MAP.
Definition get (fieldType : BasicField.t) : option (list LogicConditionState.t) :=
  snd <$> List.find (fun entry => bool_decide (fst entry = fieldType)) LOGIC_CONDITIONS.

Definition has (fieldType : BasicField.t) : bool :=
  match get fieldType with Some _ => true | None => false end.
End LOGIC_MAP.


Definition getApplicableIfStates (fieldType : BasicField.t) : list LogicConditionState.t :=
  default [] (LOGIC_MAP.get fieldType).

Definition isShowFieldsLogic (formLogic : ILogicSchema) : bool :=
  bool_decide (logicType formLogic = LogicType.ShowFields).

Definition isPreventSubmitLogic (formLogic : ILogicSchema) : bool :=
  bool_decide (logicType formLogic = LogicType.PreventSubmit).

(** ** The condition evaluator *)

Definition getCurrentValue (field : LogicFieldSchemaOrResponse) : Js.JsValue :=
  match fieldValue field with
  | Some v => v
  | None =>
      match answer field with
      | Some v => v
      | None =>
          match answerArray field with
          | Some v => v
          | None => Js.JsNull
          end
      end
  end.

Definition isLogicField (field : LogicFieldSchemaOrResponse) : bool :=
  LOGIC_MAP.has (fieldType field).

(** [Array.prototype.indexOf] on an array of strings: the first position of
    [x], or [-1]. *)
Fixpoint indexOf (l : list string) (x : string) : Z :=
  match l with
  | [] => (-1)%Z
  | y :: l' => if String.eqb y x then 0%Z
               else let i := indexOf l' x in
                    if (i <? 0)%Z then (-1)%Z else (i + 1)%Z
  end.

(** [String.prototype.startsWith] *)
Definition startsWith (s searchString : string) : bool :=
  String.prefix searchString s.

(** [cloneDeep(obj)] followed by [clone.options = clone.options.sort()]; it
    is applied to values that passed [isCheckboxConditionValue]. *)
Definition sortOptions (obj : Js.JsValue) : Js.JsValue :=
  match obj with
  | Js.JsObject (Some (Js.JsArray options)) others =>
      Js.JsObject (Some (Js.JsArray (Js.sort options))) others
  | other => other
  end.

(** The arguments are records, hence never [null] or [undefined]: of the
    first guard only [!isLogicField(field)] can hold. *)
Definition isConditionFulfilled
    (field : LogicFieldSchemaOrResponse) (condition : IConditionSchema) : bool :=
  if negb (isLogicField field) then false else
  let currentValue := getCurrentValue field in
  if match currentValue with
     | Js.JsNull | Js.JsUndefined => true
     | _ => negb (Js.isNumber currentValue) && Js.isEmpty currentValue
     end
  then false else
  match state condition with
  | LogicConditionState.Equal | LogicConditionState.Either =>
      let conditionValues := map Js.ToString (Js.concat (value condition)) in
      let currentValue := Js.ToString currentValue in
      if (indexOf conditionValues "Others" >? -1)%Z then
        let conditionValues :=
          if bool_decide (fieldType field = BasicField.Radio)
          then conditionValues ++ ["radioButtonOthers"]
          else conditionValues in
        (indexOf conditionValues currentValue >? -1)%Z
        || startsWith currentValue "Others: "
      else (indexOf conditionValues currentValue >? -1)%Z
  | LogicConditionState.AnyOf =>
      if bool_decide (fieldType field = BasicField.Checkbox)
         && isLogicCheckboxCondition condition
         && isCheckboxConditionValue currentValue
      then
        let sortedConditionValue := map sortOptions (Js.elements (value condition)) in
        let sortedCurrentValue := sortOptions currentValue in
        existsb (fun val => Js.isEqual sortedCurrentValue val) sortedConditionValue
      else false
  | LogicConditionState.Lte =>
      Js.num_le (Js.ToNumber currentValue) (Js.ToNumber (value condition))
  | LogicConditionState.Gte =>
      Js.num_ge (Js.ToNumber currentValue) (Js.ToNumber (value condition))
  end.

(** [submission.find(...)]: the first entry whose id is the condition's. *)
Definition findConditionField
    (submission : list LogicFieldSchemaOrResponse) (fieldId : string)
  : option LogicFieldSchemaOrResponse :=
  List.find (fun submittedField => String.eqb (_id submittedField) fieldId) submission.

Definition isLogicUnitSatisfied
    (submission : list LogicFieldSchemaOrResponse)
    (logicUnit : list IConditionSchema) (visibleFieldIds : FieldIdSet) : bool :=
  forallb (fun condition =>
             match findConditionField submission (field condition) with
             | Some conditionField =>
                 bool_decide (_id conditionField ∈ visibleFieldIds)
                 && isConditionFulfilled conditionField condition
             | None => false
             end) logicUnit.

(** ** The logic grouping index *)

Definition allConditionsExist
    (conditions : list IConditionSchema) (formFieldIds : FieldIdSet) : bool :=
  forallb (fun condition => bool_decide (field condition ∈ formFieldIds)) conditions.

(** [new Set(form.form_fields?.map((field) => String(field._id)))] *)
Definition formFieldIdSet (form : IFormDocument) : FieldIdSet :=
  list_to_set (map field_id (default [] (form_fields form))).

(** The body of [logicUnit.show.forEach]. *)
Definition addShowTarget (formFieldIds : FieldIdSet) (conds : list IConditionSchema)
    (logicUnitsGroupedByField : GroupedLogic) (fieldId : string) : GroupedLogic :=
  if bool_decide (fieldId ∈ formFieldIds) then
    let entry := default [] (logicUnitsGroupedByField !! fieldId) in
    <[fieldId := entry ++ [conds]]> logicUnitsGroupedByField
  else logicUnitsGroupedByField.

(** The body of [formLogics.forEach], on the pair of the index and the flag
    [hasInvalidLogic]. *)
Definition addLogicUnit (formFieldIds : FieldIdSet)
    (st : GroupedLogic * bool) (logicUnit : ILogicSchema) : GroupedLogic * bool :=
  if allConditionsExist (conditions logicUnit) formFieldIds then
    (fold_left (addShowTarget formFieldIds (conditions logicUnit)) (show logicUnit) st.1,
     st.2)
  else (st.1, true).

(** The character [U+0022], which delimits the parts of the console line. *)
Definition quote : string := String "034"%char EmptyString.

Definition invalidLogicMessage (formId : string) : string :=
  "formId=" +:+ quote +:+ formId +:+ quote +:+ " message=" +:+ quote
  +:+ "Form has invalid logic" +:+ quote.

(** [formId] is truthy: present and not the empty string. *)
Definition truthyId (formId : option string) : bool :=
  match formId with
  | Some s => negb (String.eqb s EmptyString)
  | None => false
  end.

(** The index build with its effect: the index returned and the lines written
    with [console.info]. *)
Definition groupLogicUnitsByField_io (form : IFormDocument) : GroupedLogic * list string :=
  let formId := form_id form in
  let formLogics := List.filter isShowFieldsLogic (default [] (form_logics form)) in
  let formFieldIds := formFieldIdSet form in
  let '(logicUnitsGroupedByField, hasInvalidLogic) :=
    fold_left (addLogicUnit formFieldIds) formLogics (∅, false) in
  (logicUnitsGroupedByField,
   if hasInvalidLogic && truthyId formId
   then [invalidLogicMessage (default EmptyString formId)]
   else []).

Definition groupLogicUnitsByField (form : IFormDocument) : GroupedLogic :=
  (groupLogicUnitsByField_io form).1.

(** ** The submission gate: the units considered *)

Definition getPreventSubmitConditions (form : IFormDocument) : list ILogicSchema :=
  let formFieldIds := formFieldIdSet form in
  List.filter (fun formLogic =>
                 isPreventSubmitLogic formLogic
                 && allConditionsExist (conditions formLogic) formFieldIds)
              (default [] (form_logics form)).

(** ** The visibility resolver *)

(** The body of [form.form_fields.forEach] inside the loop, on the pair of the
    visible set and the flag [changesMade]. *)
Definition sweepField (submission : list LogicFieldSchemaOrResponse)
    (logicUnitsGroupedByField : GroupedLogic)
    (st : FieldIdSet * bool) (formField : IFieldSchema) : FieldIdSet * bool :=
  let logicUnits := logicUnitsGroupedByField !! field_id formField in
  if negb (bool_decide (field_id formField ∈ st.1))
     && match logicUnits with
        | None => true
        | Some units =>
            existsb (fun logicUnit => isLogicUnitSatisfied submission logicUnit st.1) units
        end
  then ({[field_id formField]} ∪ st.1, true)
  else st.

(** One iteration of the [while] loop: [changesMade] is reset, then every form
    field is visited in order, on the set as updated so far. *)
Definition sweep (submission : list LogicFieldSchemaOrResponse)
    (logicUnitsGroupedByField : GroupedLogic) (formFields : list IFieldSchema)
    (visibleFieldIds : FieldIdSet) : FieldIdSet * bool :=
  fold_left (sweepField submission logicUnitsGroupedByField) formFields
            (visibleFieldIds, false).

(** The [while (changesMade)] loop run for at most [fuel] iterations: the final
    set with the number of iterations done, or [None] when [fuel] iterations
    did not reach the exit. *)
Fixpoint whileChangesMade (fuel : nat) (submission : list LogicFieldSchemaOrResponse)
    (logicUnitsGroupedByField : GroupedLogic) (formFields : list IFieldSchema)
    (visibleFieldIds : FieldIdSet) : option (FieldIdSet * nat) :=
  match fuel with
  | O => None
  | S fuel' =>
      let st := sweep submission logicUnitsGroupedByField formFields visibleFieldIds in
      if st.2 then
        match whileChangesMade fuel' submission logicUnitsGroupedByField formFields st.1 with
        | Some (result, sweeps) => Some (result, S sweeps)
        | None => None
        end
      else Some (st.1, 1%nat)
  end.

(** [getVisibleFieldIds] with a bound on the iterations of its loop. *)
Definition getVisibleFieldIdsWithin (fuel : nat)
    (submission : list LogicFieldSchemaOrResponse) (form : IFormDocument)
  : option (FieldIdSet * nat) :=
  let logicUnitsGroupedByField := groupLogicUnitsByField form in
  whileChangesMade fuel submission logicUnitsGroupedByField
                   (default [] (form_fields form)) ∅.

(** [getVisibleFieldIds]: the loop never needs more iterations than the form
    has fields, plus one (see [getVisibleFieldIds_run]), so that bound loses no
    run of the source. *)
Definition getVisibleFieldIds
    (submission : list LogicFieldSchemaOrResponse) (form : IFormDocument) : FieldIdSet :=
  match getVisibleFieldIdsWithin (S (length (default [] (form_fields form))))
                                 submission form with
  | Some (visibleFieldIds, _) => visibleFieldIds
  | None => ∅
  end.

(** ** The submission gate *)

Definition getLogicUnitPreventingSubmit
    (submission : list LogicFieldSchemaOrResponse) (form : IFormDocument)
    (visibleFieldIds : option FieldIdSet) : option ILogicSchema :=
  let definedVisibleFieldIds :=
    match visibleFieldIds with
    | Some ids => ids
    | None => getVisibleFieldIds submission form
    end in
  let preventSubmitConditions := getPreventSubmitConditions form in
  List.find (fun logicUnit =>
               isLogicUnitSatisfied submission (conditions logicUnit)
                                    definedVisibleFieldIds)
            preventSubmitConditions.


(** ** Notions used in the statements *)

(** The guard of the evaluator on the current value: it is [null],
    [undefined], or not a number and empty. *)
Definition rejectedValue (v : Js.JsValue) : bool :=
  match v with
  | Js.JsNull | Js.JsUndefined => true
  | _ => negb (Js.isNumber v) && Js.isEmpty v
  end.

(** The sorted arrangement of an array of strings, by code units. *)
Fixpoint insertString (x : string) (l : list string) : list string :=
  match l with
  | [] => [x]
  | y :: l' => if String.leb x y then x :: l else y :: insertString x l'
  end.

Definition sortStrings (l : list string) : list string :=
  fold_right insertString [] l.

(** The pair of a field type and an operator is in the applicability table. *)
Definition operatorApplies (ft : BasicField.t) (st : LogicConditionState.t) : bool :=
  bool_decide (st ∈ getApplicableIfStates ft).

(** A unit the index keeps: of type ShowFields, with every condition on a
    field of the form. *)
Definition retainedUnit (formFieldIds : FieldIdSet) (u : ILogicSchema) : bool :=
  isShowFieldsLogic u && allConditionsExist (conditions u) formFieldIds.

(** The groups that the units of the form contribute to the target [id], in
    authoring order: the condition group of each retained unit, once per
    occurrence of [id] among its show-targets. *)
Definition groupsShowing (form : IFormDocument) (id : string)
  : list (list IConditionSchema) :=
  flat_map (fun u => if retainedUnit (formFieldIdSet form) u
                     then map (fun _ => conditions u)
                              (List.filter (String.eqb id) (show u))
                     else [])
           (default [] (form_logics form)).

(** The form with its logic units replaced. *)
Definition withLogics (form : IFormDocument) (logics : list ILogicSchema)
  : IFormDocument :=
  mkForm (form_id form) (form_fields form) (Some logics).

(** The unit with its show-targets replaced. *)
Definition withShow (u : ILogicSchema) (targets : list string) : ILogicSchema :=
  mkLogic (logicType u) (conditions u) targets.

(** Every key of the index is a field of the form, and no entry is empty. *)
Definition wfIndex (formFieldIds : FieldIdSet) (g : GroupedLogic) : Prop :=
  forall id l, g !! id = Some l -> id ∈ formFieldIds /\ l <> [].

(** The groups that one unit with valid conditions contributes to [id]. *)
Definition unitGroups (formFieldIds : FieldIdSet) (id : string) (u : ILogicSchema)
  : list (list IConditionSchema) :=
  if allConditionsExist (conditions u) formFieldIds
  then map (fun _ => conditions u) (List.filter (String.eqb id) (show u))
  else [].

(** A unit that is malformed in the sense of the specification: one of its
    conditions is on an unknown field, or all its show-targets are unknown. *)
Definition malformedUnit (formFieldIds : FieldIdSet) (u : ILogicSchema) : bool :=
  negb (allConditionsExist (conditions u) formFieldIds)
  || forallb (fun t => negb (bool_decide (t ∈ formFieldIds))) (show u).

(** Every condition of the group has its subject among the answers, in the
    visible set, and evaluating true against the subject's answer. *)
Definition groupSatisfied (submission : list LogicFieldSchemaOrResponse)
    (visible : FieldIdSet) (group : list IConditionSchema) : Prop :=
  forall c, In c group ->
    exists f, findConditionField submission (field c) = Some f
              /\ field c ∈ visible
              /\ isConditionFulfilled f c = true.

(** A field may be shown: it has no entry in the index, or one of its groups
    is satisfied. *)
Definition showable (submission : list LogicFieldSchemaOrResponse)
    (index : GroupedLogic) (visible : FieldIdSet) (id : string) : Prop :=
  index !! id = None
  \/ exists groups group, index !! id = Some groups /\ In group groups
                          /\ groupSatisfied submission visible group.

(** One step of the visibility rule over the fields of the form. *)
Definition visibleStep (submission : list LogicFieldSchemaOrResponse)
    (form : IFormDocument) (visible : FieldIdSet) (id : string) : Prop :=
  id ∈ formFieldIdSet form
  /\ showable submission (groupLogicUnitsByField form) visible id.

(** Every id of the set is the id of a form field that may be shown, given
    the set itself. *)
Definition justified (submission : list LogicFieldSchemaOrResponse)
    (index : GroupedLogic) (fields : list IFieldSchema) (V : FieldIdSet) : Prop :=
  forall id, id ∈ V ->
    id ∈ (list_to_set (map field_id fields) : FieldIdSet)
    /\ showable submission index V id.

(** A unit blocks the submission: it is of type PreventSubmit, every condition
    is on a field of the form, and the group of its conditions is satisfied. *)
Definition blockingUnit (submission : list LogicFieldSchemaOrResponse)
    (form : IFormDocument) (visible : FieldIdSet) (u : ILogicSchema) : Prop :=
  logicType u = LogicType.PreventSubmit
  /\ (forall c, In c (conditions u) -> field c ∈ formFieldIdSet form)
  /\ groupSatisfied submission visible (conditions u).

(** The test that [getLogicUnitPreventingSubmit] applies to a unit of the
    form, the filter of [getPreventSubmitConditions] included. *)
Definition blocks (submission : list LogicFieldSchemaOrResponse) (form : IFormDocument)
    (visible : FieldIdSet) (u : ILogicSchema) : bool :=
  (isPreventSubmitLogic u && allConditionsExist (conditions u) (formFieldIdSet form))
  && isLogicUnitSatisfied submission (conditions u) visible.

(** ** Sample forms and answers *)

Module Samples.

Definition str (s : string) : Js.JsValue := Js.JsString s.
Definition num (n : Z) : Js.JsValue := Js.JsNum (Js.Finite n 0).

(** The end-to-end scenario: [Dropdown(d1), Email(e1), Number(n1)], with [e1]
    shown when [d1] is ["Option A"], and the submission blocked when [n1] is
    at least 100. *)
Definition fields3 : list IFieldSchema :=
  [ mkField "d1" BasicField.Dropdown;
    mkField "e1" (BasicField.Other "email");
    mkField "n1" BasicField.Number ].

Definition showE1 : ILogicSchema :=
  mkLogic LogicType.ShowFields
          [mkCondition "d1" LogicConditionState.Equal (str "Option A")] ["e1"].

Definition blockBig : ILogicSchema :=
  mkLogic LogicType.PreventSubmit
          [mkCondition "n1" LogicConditionState.Gte (num 100)] [].

Definition form3 : IFormDocument :=
  mkForm (Some "f1") (Some fields3) (Some [showE1; blockBig]).

Definition answers (d n : string) : list LogicFieldSchemaOrResponse :=
  [ mkResponse "d1" BasicField.Dropdown None (Some (str d)) None;
    mkResponse "n1" BasicField.Number None (Some (str n)) None ].

(** A cycle: [a] is shown on [b]'s answer and [b] on [a]'s. *)
Definition cyclic : IFormDocument :=
  mkForm (Some "f2")
    (Some [mkField "a" BasicField.YesNo; mkField "b" BasicField.YesNo])
    (Some [ mkLogic LogicType.ShowFields
              [mkCondition "b" LogicConditionState.Equal (str "Yes")] ["a"];
            mkLogic LogicType.ShowFields
              [mkCondition "a" LogicConditionState.Equal (str "Yes")] ["b"] ]).

Definition bothYes : list LogicFieldSchemaOrResponse :=
  [ mkResponse "a" BasicField.YesNo (Some (str "Yes")) None None;
    mkResponse "b" BasicField.YesNo (Some (str "Yes")) None None ].

Definition sampleFields : list IFieldSchema :=
  [ mkField "a" BasicField.YesNo; mkField "b" (BasicField.Other "textfield");
    mkField "c" (BasicField.Other "email") ].

Definition onA : list IConditionSchema :=
  [mkCondition "a" LogicConditionState.Equal (Js.JsString "Yes")].

Definition onGone : list IConditionSchema :=
  [ mkCondition "a" LogicConditionState.Equal (Js.JsString "No");
    mkCondition "gone" LogicConditionState.Equal (Js.JsString "x") ].

(** One unit shows [b] and a deleted field; the other has a condition on a
    deleted field. *)
Definition sampleForm : IFormDocument :=
  mkForm (Some "form1") (Some sampleFields)
         (Some [ mkLogic LogicType.ShowFields onA ["b"; "deleted"];
                 mkLogic LogicType.ShowFields onGone ["c"] ]).

(** A unit whose only show-target is a deleted field. *)
Definition deletedTargetForm : IFormDocument :=
  mkForm (Some "form1") (Some sampleFields)
         (Some [mkLogic LogicType.ShowFields onA ["deleted"]]).

End Samples.

(** ** The Checkbox2 component

    The component holds two pieces of state, set by its two change handlers.
    A handler reads the state of the render in which the event arrives and
    the component is rendered again before the next event; the calls that a
    handler makes on the [onChange] property and on the input's ref are
    recorded as effects. *)

Module Checkbox2.

(** [useState(false)] and [useState<string>('')]. *)
Record State : Type := mkState {
  isCheckboxChecked : bool;
  inputValue : string
}.

Definition initialState : State := mkState false EmptyString.

(** [inputRef.current?.focus()] and [onChange?.(val)]. *)
Inductive Effect : Type :=
| FocusInput
| OnChange (val : string).

(** A change event of the checkbox, with [event.target.checked], or of the
    input, with [event.target.value]. *)
Inductive Event : Type :=
| CheckboxChange (checked : bool)
| InputChange (value : string).

(** [onChange?.(val)]: the call is made when the property is given. *)
Definition notify (onChange : bool) (val : string) : list Effect :=
  if onChange then [OnChange val] else [].

Definition handleCheckboxChange (onChange : bool) (st : State) (isChecked : bool)
  : State * list Effect :=
  let st' := mkState isChecked (inputValue st) in
  if isChecked
  then (st', FocusInput :: notify onChange (inputValue st))
  else (st', notify onChange EmptyString).

Definition handleInputChange (onChange : bool) (st : State) (value : string)
  : State * list Effect :=
  let checked :=
    if negb (String.eqb value EmptyString) && negb (isCheckboxChecked st)
    then true
    else isCheckboxChecked st in
  (mkState checked value, notify onChange value).

Definition handle (onChange : bool) (st : State) (ev : Event) : State * list Effect :=
  match ev with
  | CheckboxChange checked => handleCheckboxChange onChange st checked
  | InputChange value => handleInputChange onChange st value
  end.

(** The events handled one after the other, with all the effects in order. *)
Fixpoint run (onChange : bool) (st : State) (events : list Event)
  : State * list Effect :=
  match events with
  | [] => (st, [])
  | ev :: rest =>
      let r := handle onChange st ev in
      let r' := run onChange r.1 rest in
      (r'.1, r.2 ++ r'.2)
  end.

(** The value that the parent should hold: the text when the box is checked,
    the empty string otherwise. *)
Definition effectiveValue (st : State) : string :=
  if isCheckboxChecked st then inputValue st else EmptyString.

(** The value of the last call of [onChange] among the effects. *)
Fixpoint lastReported (effects : list Effect) : option string :=
  match effects with
  | [] => None
  | OnChange val :: rest =>
      match lastReported rest with
      | Some later => Some later
      | None => Some val
      end
  | FocusInput :: rest => lastReported rest
  end.

Definition isCheckboxEvent (ev : Event) : bool :=
  match ev with CheckboxChange _ => true | InputChange _ => false end.

End Checkbox2.

(** * Properties *)

(** ** Sample runs *)

Section SampleRuns.

Import Samples.

Example number_to_string :
  map Js.numToString
      [Js.Finite 5 0; Js.Finite 15 (-1); Js.Finite 1200 0; Js.Finite (-125) (-8);
       Js.Finite 1 21; Js.Finite 1 (-7)]
  = ["5"; "1.5"; "1200"; "-0.00000125"; "1e+21"; "1e-7"].
Proof. vm_compute. reflexivity. Qed.

Example string_to_number :
  map Js.stringToNumber ["  12.50 "; EmptyString; "0x1F"; "-.5e-3"; "5."; "."; "abc"; "-Infinity"]
  = [Js.Finite 1250 (-2); Js.Finite 0 0; Js.Finite 31 0; Js.Finite (-5) (-4);
     Js.Finite 5 0; Js.NaN; Js.NaN; Js.Infinity true].
Proof. vm_compute. reflexivity. Qed.

Example array_to_string :
  Js.ToString (Js.JsArray [str "a"; Js.JsNull; num 3; Js.JsArray [str "x"; str "y"]])
  = "a,,3,x,y".
Proof. vm_compute. reflexivity. Qed.

Example resolve_option_A :
  getVisibleFieldIdsWithin 4 (answers "Option A" "150") form3
  = Some ({["d1"; "e1"; "n1"]}, 2%nat).
Proof. vm_compute. reflexivity. Qed.

Example resolve_option_B :
  getVisibleFieldIds (answers "Option B" "150") form3 = {["d1"; "n1"]}.
Proof. vm_compute. reflexivity. Qed.

Example gate_blocks_150 :
  getLogicUnitPreventingSubmit (answers "Option A" "150") form3 None = Some blockBig.
Proof. vm_compute. reflexivity. Qed.

Example gate_passes_50 :
  getLogicUnitPreventingSubmit (answers "Option A" "50") form3 None = None.
Proof. vm_compute. reflexivity. Qed.

(** Neither field of the cycle turns visible. *)
Example cycle_stays_hidden : getVisibleFieldIds bothYes cyclic = ∅.
Proof. vm_compute. reflexivity. Qed.

End SampleRuns.

(** ** Properties of the condition evaluator *)

Section Evaluator.

Import Js.

Lemma indexOf_lower (l : list string) (x : string) : (-1 <= indexOf l x)%Z.
Proof.
  induction l as [|y l IH]; simpl; [lia|].
  destruct (String.eqb y x); [lia|].
  destruct (Z.ltb_spec (indexOf l x) 0); lia.
Qed.

(** [indexOf(x) > -1] is membership. *)
Lemma indexOf_found (l : list string) (x : string) :
  (indexOf l x >? -1)%Z = true <-> In x l.
Proof.
  induction l as [|y l IH]; simpl.
  - split; [discriminate | tauto].
  - destruct (String.eqb_spec y x) as [->|Hne].
    + split; [auto | reflexivity].
    + pose proof (indexOf_lower l x) as Hlow.
      destruct (Z.ltb_spec (indexOf l x) 0) as [Hneg|Hpos].
      * split; [discriminate|].
        intros [Heq|Hin]; [congruence|].
        apply IH in Hin. apply Z.gtb_lt in Hin. lia.
      * split.
        -- intros _. right. apply IH. apply Z.gtb_lt. lia.
        -- intros _. apply Z.gtb_lt. lia.
Qed.

Lemma LOGIC_MAP_has_iff (ft : BasicField.t) :
  LOGIC_MAP.has ft = true <->
  In ft [BasicField.Checkbox; BasicField.Dropdown; BasicField.Number;
         BasicField.Decimal; BasicField.Rating; BasicField.YesNo; BasicField.Radio].
Proof.
  split.
  - destruct ft; simpl; try tauto. discriminate.
  - simpl. intros H. repeat destruct H as [<-|H]; try reflexivity. destruct H.
Qed.

(** The evaluator answers [false] at once for a field type without an entry
    in [LOGIC_MAP]. *)
Lemma isConditionFulfilled_not_logic_field f c :
  isLogicField f = false -> isConditionFulfilled f c = false.
Proof. intros H. unfold isConditionFulfilled. rewrite H. reflexivity. Qed.


Lemma isConditionFulfilled_rejected f c :
  rejectedValue (getCurrentValue f) = true -> isConditionFulfilled f c = false.
Proof.
  intros H. unfold isConditionFulfilled.
  destruct (negb (isLogicField f)); [reflexivity|].
  unfold rejectedValue in H. rewrite H. reflexivity.
Qed.

(** What the evaluator computes once both guards are passed. *)
Lemma isConditionFulfilled_passed f c :
  isLogicField f = true ->
  rejectedValue (getCurrentValue f) = false ->
  isConditionFulfilled f c =
  match state c with
  | LogicConditionState.Equal | LogicConditionState.Either =>
      let conditionValues := map ToString (concat (value c)) in
      let currentValue := ToString (getCurrentValue f) in
      if (indexOf conditionValues "Others" >? -1)%Z then
        let conditionValues :=
          if bool_decide (fieldType f = BasicField.Radio)
          then conditionValues ++ ["radioButtonOthers"]
          else conditionValues in
        (indexOf conditionValues currentValue >? -1)%Z
        || startsWith currentValue "Others: "
      else (indexOf conditionValues currentValue >? -1)%Z
  | LogicConditionState.AnyOf =>
      if bool_decide (fieldType f = BasicField.Checkbox)
         && isLogicCheckboxCondition c
         && isCheckboxConditionValue (getCurrentValue f)
      then
        existsb (fun val => isEqual (sortOptions (getCurrentValue f)) val)
                (map sortOptions (elements (value c)))
      else false
  | LogicConditionState.Lte =>
      num_le (ToNumber (getCurrentValue f)) (ToNumber (value c))
  | LogicConditionState.Gte =>
      num_ge (ToNumber (getCurrentValue f)) (ToNumber (value c))
  end.
Proof.
  intros Hl Hr. unfold isConditionFulfilled. rewrite Hl. simpl negb. cbv iota.
  unfold rejectedValue in Hr. rewrite Hr. reflexivity.
Qed.

Lemma isConditionFulfilled_true_guards f c :
  isConditionFulfilled f c = true ->
  isLogicField f = true /\ rejectedValue (getCurrentValue f) = false.
Proof.
  intros H. split.
  - destruct (isLogicField f) eqn:E; [reflexivity|].
    rewrite isConditionFulfilled_not_logic_field in H; [discriminate | exact E].
  - destruct (rejectedValue (getCurrentValue f)) eqn:E; [|reflexivity].
    rewrite isConditionFulfilled_rejected in H; [discriminate | exact E].
Qed.

End Evaluator.

(** ** Checkbox values *)


Section Checkbox.

Import Js.

Lemma insertSorted_strings x l :
  insertSorted (JsString x) (map JsString l) = map JsString (insertString x l).
Proof.
  induction l as [|y l IH]; simpl; [reflexivity|].
  destruct (String.leb x y); simpl; [reflexivity|]. now rewrite IH.
Qed.

Lemma sort_strings l : sort (map JsString l) = map JsString (sortStrings l).
Proof.
  induction l as [|x l IH]; [reflexivity|].
  change (insertSorted (JsString x) (sort (map JsString l))
          = map JsString (insertString x (sortStrings l))).
  rewrite IH. apply insertSorted_strings.
Qed.

Lemma all_strings xs :
  forallb isString xs = true -> exists l, xs = map JsString l.
Proof.
  induction xs as [|x xs IH]; simpl; intros H.
  - exists []. reflexivity.
  - apply andb_true_iff in H as [Hx Hxs]. destruct (IH Hxs) as [l ->].
    destruct x; try discriminate. exists (s :: l). reflexivity.
Qed.

Lemma all_strings_map l : forallb isString (map JsString l) = true.
Proof. induction l; simpl; auto. Qed.

(** The type guard holds exactly of the values of shape
    [{ options: string[], others: boolean }]. *)
Lemma isCheckboxConditionValue_iff v :
  isCheckboxConditionValue v = true <->
  exists opts oth, v = CheckboxConditionValue opts oth.
Proof.
  split.
  - unfold isCheckboxConditionValue, hasProp. intros H.
    apply andb_true_iff in H as [Hv Ho].
    destruct v as [| | | | | |o t]; try discriminate.
    unfold get in Hv, Ho. simpl in Hv, Ho.
    destruct o as [o|]; [|discriminate].
    destruct t as [t|]; [|discriminate].
    simpl in Hv, Ho.
    apply andb_true_iff in Hv as [Ha He].
    destruct o; try discriminate. destruct t; try discriminate.
    simpl in He. destruct (all_strings _ He) as [l ->]. exists l, b. reflexivity.
  - intros (opts & oth & ->).
    unfold isCheckboxConditionValue, hasProp, get, CheckboxConditionValue.
    simpl. now rewrite all_strings_map.
Qed.

Lemma all_checkbox_values xs :
  forallb isCheckboxConditionValue xs = true <->
  exists cands : list (list string * bool),
    xs = map (fun cand => CheckboxConditionValue cand.1 cand.2) cands.
Proof.
  split.
  - induction xs as [|x xs IH]; simpl; intros H.
    + exists []. reflexivity.
    + apply andb_true_iff in H as [Hx Hxs]. destruct (IH Hxs) as [cands ->].
      apply isCheckboxConditionValue_iff in Hx as (o & t & ->).
      exists ((o, t) :: cands). reflexivity.
  - intros [cands ->]. induction cands as [|cand cands IH]; simpl; [reflexivity|].
    rewrite IH, andb_true_r. apply isCheckboxConditionValue_iff. eauto.
Qed.

Lemma isLogicCheckboxCondition_iff c :
  isLogicCheckboxCondition c = true <->
  exists cands : list (list string * bool),
    value c = JsArray (map (fun cand => CheckboxConditionValue cand.1 cand.2) cands).
Proof.
  unfold isLogicCheckboxCondition. split.
  - intros H. apply andb_true_iff in H as [Ha He].
    destruct (value c); try discriminate. simpl in He.
    apply all_checkbox_values in He as [cands ->]. eauto.
  - intros [cands ->]. simpl. apply all_checkbox_values. eauto.
Qed.

Lemma isEqual_string_arrays l r :
  isEqual (JsArray (map JsString l)) (JsArray (map JsString r)) = true <-> l = r.
Proof.
  simpl. revert r. induction l as [|x l IH]; intros [|y r]; simpl;
    try (split; [discriminate | discriminate]); [tauto|].
  rewrite andb_true_iff, IH, String.eqb_eq. split.
  - intros [-> ->]. reflexivity.
  - intros [= -> ->]. auto.
Qed.

Lemma isEqual_checkbox_values o1 t1 o2 t2 :
  isEqual (CheckboxConditionValue o1 t1) (CheckboxConditionValue o2 t2) = true
  <-> o1 = o2 /\ t1 = t2.
Proof.
  unfold CheckboxConditionValue.
  change (isEqual (JsArray (map JsString o1)) (JsArray (map JsString o2))
          && Bool.eqb t1 t2 = true <-> o1 = o2 /\ t1 = t2).
  rewrite andb_true_iff, isEqual_string_arrays, Bool.eqb_true_iff. tauto.
Qed.

Lemma sortOptions_checkbox opts oth :
  sortOptions (CheckboxConditionValue opts oth)
  = CheckboxConditionValue (sortStrings opts) oth.
Proof. unfold sortOptions, CheckboxConditionValue. now rewrite sort_strings. Qed.

Lemma rejectedValue_checkbox opts oth :
  rejectedValue (CheckboxConditionValue opts oth) = false.
Proof. reflexivity. Qed.

End Checkbox.

(** ** The claims on the condition evaluator *)


Section EvaluatorClaims.

Import Js.

(** C1, as stated, fails: a YesNo field answered ["Yes"] fulfils an [Either]
    condition on ["Yes"] or ["No"], although the table gives YesNo the
    operator [Equal] only. *)
Lemma either_on_yes_no_is_fulfilled :
  let f := mkResponse "q1" BasicField.YesNo None (Some (JsString "Yes")) None in
  let c := mkCondition "q1" LogicConditionState.Either
                       (JsArray [JsString "Yes"; JsString "No"]) in
  isConditionFulfilled f c = true
  /\ operatorApplies (fieldType f) (state c) = false.
Proof. split; vm_compute; reflexivity. Qed.

(** C1, amended: the evaluator returns [true] only for a subject whose field
    type is one of the seven of the table, and on [AnyOf] only for a Checkbox
    subject; hence it returns [false] for every field type outside the
    table. *)
Theorem isConditionFulfilled_table_field_types f c :
  isConditionFulfilled f c = true ->
  In (fieldType f)
     [BasicField.Checkbox; BasicField.Dropdown; BasicField.Number;
      BasicField.Decimal; BasicField.Rating; BasicField.YesNo; BasicField.Radio]
  /\ (state c = LogicConditionState.AnyOf -> fieldType f = BasicField.Checkbox).
Proof.
  intros H. destruct (isConditionFulfilled_true_guards _ _ H) as [Hl Hr]. split.
  - apply LOGIC_MAP_has_iff. exact Hl.
  - intros Hs. rewrite (isConditionFulfilled_passed _ _ Hl Hr), Hs in H.
    destruct (bool_decide_reflect (fieldType f = BasicField.Checkbox)) as [E|E];
      [exact E | discriminate].
Qed.

Lemma isConditionFulfilled_table_field_types_witness :
  let f := mkResponse "q1" BasicField.Dropdown (Some (JsString "2")) None None in
  let c := mkCondition "q1" LogicConditionState.Lte (JsNum (Finite 3 0)) in
  isConditionFulfilled f c = true
  /\ In (fieldType f)
        [BasicField.Checkbox; BasicField.Dropdown; BasicField.Number;
         BasicField.Decimal; BasicField.Rating; BasicField.YesNo; BasicField.Radio]
  /\ (state c = LogicConditionState.AnyOf -> fieldType f = BasicField.Checkbox).
Proof.
  split; [reflexivity|].
  apply (isConditionFulfilled_table_field_types
           (mkResponse "q1" BasicField.Dropdown (Some (JsString "2")) None None)
           (mkCondition "q1" LogicConditionState.Lte (JsNum (Finite 3 0)))).
  reflexivity.
Defined.

Lemma prefix_nonempty p s :
  p <> EmptyString -> String.prefix p s = true -> s <> EmptyString.
Proof. intros Hp H ->. destruct p; [congruence | discriminate]. Qed.

(** C4: on a Radio subject, an [Equal] or [Either] condition whose values
    include the string ["Others"] is fulfilled by the sentinel answer
    ["radioButtonOthers"] and by every answer that starts with ["Others: "]. *)
Theorem radio_others_both_representations f c s :
  fieldType f = BasicField.Radio ->
  state c = LogicConditionState.Equal \/ state c = LogicConditionState.Either ->
  In (JsString "Others") (concat (value c)) ->
  getCurrentValue f = JsString s ->
  s = "radioButtonOthers" \/ startsWith s "Others: " = true ->
  isConditionFulfilled f c = true.
Proof.
  intros Hft Hst Hin Hcur Hs.
  assert (Hne : s <> EmptyString).
  { destruct Hs as [->|Hp]; [discriminate|].
    eapply prefix_nonempty; [|exact Hp]. discriminate. }
  assert (Hl : isLogicField f = true) by (unfold isLogicField; now rewrite Hft).
  assert (Hr : rejectedValue (getCurrentValue f) = false).
  { rewrite Hcur. simpl. now apply String.eqb_neq. }
  rewrite (isConditionFulfilled_passed _ _ Hl Hr), Hcur, Hft.
  assert (Hothers : (indexOf (map ToString (concat (value c))) "Others" >? -1)%Z = true).
  { apply indexOf_found. change "Others" with (ToString (JsString "Others")).
    now apply in_map. }
  assert (Hgoal :
    (indexOf (map ToString (concat (value c)) ++ ["radioButtonOthers"]) s >? -1)%Z
    || startsWith s "Others: " = true).
  { destruct Hs as [->|Hp].
    - apply orb_true_iff. left. apply indexOf_found, in_or_app. right. now left.
    - rewrite Hp. apply orb_true_r. }
  destruct Hst as [-> | ->]; cbv zeta; rewrite Hothers; exact Hgoal.
Qed.

Lemma radio_others_both_representations_witness :
  isConditionFulfilled
    (mkResponse "r1" BasicField.Radio None (Some (JsString "Others: custom text")) None)
    (mkCondition "r1" LogicConditionState.Equal (JsString "Others")) = true
  /\ isConditionFulfilled
       (mkResponse "r1" BasicField.Radio (Some (JsString "radioButtonOthers")) None None)
       (mkCondition "r1" LogicConditionState.Either
                    (JsArray [JsString "A"; JsString "Others"])) = true.
Proof.
  split.
  - apply (radio_others_both_representations _ _ "Others: custom text");
      [reflexivity | left; reflexivity | left; reflexivity | reflexivity
      | right; reflexivity].
  - apply (radio_others_both_representations _ _ "radioButtonOthers");
      [reflexivity | right; reflexivity | right; left; reflexivity | reflexivity
      | left; reflexivity].
Defined.

(** C7: the evaluator returns [false] when the current value is absent
    ([null] or [undefined], also when the entry has none of the three value
    properties), when it is empty (the empty string, the empty array, the
    object without keys), and when the field type has no entry in the table. *)
Theorem absent_or_empty_is_not_fulfilled f c :
  getCurrentValue f = JsNull \/ getCurrentValue f = JsUndefined
  \/ (fieldValue f = None /\ answer f = None /\ answerArray f = None)
  \/ getCurrentValue f = JsString EmptyString \/ getCurrentValue f = JsArray []
  \/ getCurrentValue f = JsObject None None
  \/ LOGIC_MAP.get (fieldType f) = None ->
  isConditionFulfilled f c = false.
Proof.
  intros [H|[H|[(H1 & H2 & H3)|[H|[H|[H|H]]]]]];
    try (apply isConditionFulfilled_rejected; rewrite H; reflexivity).
  - apply isConditionFulfilled_rejected. unfold getCurrentValue.
    rewrite H1, H2, H3. reflexivity.
  - apply isConditionFulfilled_not_logic_field. unfold isLogicField, LOGIC_MAP.has.
    rewrite H. reflexivity.
Qed.

(** The Number field with the empty-string answer, against [{Gte, 5}]. *)
Lemma absent_or_empty_is_not_fulfilled_witness :
  isConditionFulfilled
    (mkResponse "n1" BasicField.Number None (Some (JsString EmptyString)) None)
    (mkCondition "n1" LogicConditionState.Gte (JsNum (Finite 5 0))) = false.
Proof.
  apply absent_or_empty_is_not_fulfilled.
  right; right; right; left. reflexivity.
Defined.

(** C8: an [AnyOf] condition is fulfilled exactly when the subject is a
    Checkbox field, the condition value is an array of [{options, others}]
    values, the current answer is an [{options, others}] value, and some
    candidate has the same sorted options and the same [others] flag as the
    answer. *)
Theorem anyOf_fulfilled_iff f c :
  state c = LogicConditionState.AnyOf ->
  (isConditionFulfilled f c = true <->
   fieldType f = BasicField.Checkbox
   /\ exists (cands : list (list string * bool)) (opts : list string) (oth : bool),
        value c = JsArray (map (fun cand => CheckboxConditionValue cand.1 cand.2) cands)
        /\ getCurrentValue f = CheckboxConditionValue opts oth
        /\ exists cand, In cand cands
                        /\ sortStrings cand.1 = sortStrings opts /\ cand.2 = oth).
Proof.
  intros Hst. split.
  - intros H. destruct (isConditionFulfilled_true_guards _ _ H) as [Hl Hr].
    rewrite (isConditionFulfilled_passed _ _ Hl Hr), Hst in H.
    destruct (bool_decide_reflect (fieldType f = BasicField.Checkbox)) as [Hft|];
      [|discriminate].
    destruct (isLogicCheckboxCondition c) eqn:Hc; [|discriminate].
    destruct (isCheckboxConditionValue (getCurrentValue f)) eqn:Hv; [|discriminate].
    simpl in H. split; [exact Hft|].
    apply isLogicCheckboxCondition_iff in Hc as [cands Hc].
    apply isCheckboxConditionValue_iff in Hv as (opts & oth & Hv).
    exists cands, opts, oth. split; [exact Hc|]. split; [exact Hv|].
    rewrite Hc, Hv in H. simpl elements in H.
    apply existsb_exists in H as (val & Hin & Heq).
    apply in_map_iff in Hin as (x & <- & Hin).
    apply in_map_iff in Hin as (cand & <- & Hin).
    rewrite !sortOptions_checkbox in Heq.
    apply isEqual_checkbox_values in Heq as [Ho Ht].
    exists cand. auto.
  - intros (Hft & cands & opts & oth & Hc & Hv & cand & Hin & Ho & Ht).
    assert (Hl : isLogicField f = true) by (unfold isLogicField; now rewrite Hft).
    assert (Hr : rejectedValue (getCurrentValue f) = false) by now rewrite Hv.
    rewrite (isConditionFulfilled_passed _ _ Hl Hr), Hst.
    rewrite (bool_decide_eq_true_2 _ Hft).
    rewrite (proj2 (isLogicCheckboxCondition_iff c)) by eauto.
    rewrite (proj2 (isCheckboxConditionValue_iff _)) by eauto.
    simpl andb. cbv iota. rewrite Hc, Hv. simpl elements.
    apply existsb_exists.
    exists (sortOptions (CheckboxConditionValue cand.1 cand.2)). split.
    + apply in_map, in_map_iff. exists cand. auto.
    + rewrite !sortOptions_checkbox. apply isEqual_checkbox_values. auto.
Qed.

Lemma anyOf_fulfilled_iff_witness :
  isConditionFulfilled
    (mkResponse "c1" BasicField.Checkbox None None
                (Some (CheckboxConditionValue ["b"; "a"] false)))
    (mkCondition "c1" LogicConditionState.AnyOf
                 (JsArray [CheckboxConditionValue ["x"] true;
                           CheckboxConditionValue ["a"; "b"] false])) = true.
Proof.
  apply (anyOf_fulfilled_iff
           (mkResponse "c1" BasicField.Checkbox None None
                       (Some (CheckboxConditionValue ["b"; "a"] false)))
           (mkCondition "c1" LogicConditionState.AnyOf
                        (JsArray [CheckboxConditionValue ["x"] true;
                                  CheckboxConditionValue ["a"; "b"] false])));
    [reflexivity|].
  split; [reflexivity|].
  exists [(["x"], true); (["a"; "b"], false)], ["b"; "a"], false.
  split; [reflexivity|]. split; [reflexivity|].
  exists (["a"; "b"], false). split; [right; left; reflexivity|].
  split; reflexivity.
Defined.

End EvaluatorClaims.

(** ** The logic grouping index *)


Section Index.

Variable formFieldIds : FieldIdSet.

Local Abbreviation wfIndex' := (wfIndex formFieldIds).
Local Abbreviation unitGroups' := (unitGroups formFieldIds).


Lemma addShowTarget_lookup conds (g : GroupedLogic) t id :
  addShowTarget formFieldIds conds g t !! id =
  if bool_decide (t ∈ formFieldIds) && String.eqb id t
  then Some (default [] (g !! id) ++ [conds])
  else g !! id.
Proof.
  unfold addShowTarget.
  destruct (bool_decide_reflect (t ∈ formFieldIds)) as [Hin|Hnin]; simpl; [|reflexivity].
  destruct (String.eqb_spec id t) as [->|Hne].
  - apply lookup_insert_eq.
  - apply lookup_insert_ne. congruence.
Qed.

Lemma addShowTarget_wf conds (g : GroupedLogic) t :
  wfIndex' g -> wfIndex' (addShowTarget formFieldIds conds g t).
Proof.
  intros Hwf id l. rewrite addShowTarget_lookup.
  destruct (bool_decide_reflect (t ∈ formFieldIds)) as [Hin|Hnin]; simpl;
    [|apply Hwf].
  destruct (String.eqb_spec id t) as [->|Hne]; [|apply Hwf].
  intros [= <-]. split; [exact Hin|]. intros E. now apply app_eq_nil in E as [_ ?].
Qed.

Lemma fold_addShowTarget_wf conds ts (g : GroupedLogic) :
  wfIndex' g -> wfIndex' (fold_left (addShowTarget formFieldIds conds) ts g).
Proof.
  revert g. induction ts as [|t ts IH]; intros g Hwf; simpl; [exact Hwf|].
  apply IH, addShowTarget_wf, Hwf.
Qed.

(** The show-targets of one unit: the group is appended to the entry of [id]
    once per occurrence of [id], provided [id] is a field of the form. *)
Lemma fold_addShowTarget_entries conds ts (g : GroupedLogic) id :
  default [] (fold_left (addShowTarget formFieldIds conds) ts g !! id) =
  default [] (g !! id)
  ++ (if bool_decide (id ∈ formFieldIds)
      then map (fun _ => conds) (List.filter (String.eqb id) ts)
      else []).
Proof.
  revert g. induction ts as [|t ts IH]; intros g; simpl.
  - destruct (bool_decide _); now rewrite app_nil_r.
  - rewrite IH, addShowTarget_lookup.
    destruct (String.eqb_spec id t) as [->|Hne].
    + destruct (bool_decide_reflect (t ∈ formFieldIds)) as [Hin|Hnin]; simpl.
      * now rewrite <- app_assoc.
      * reflexivity.
    + now rewrite andb_false_r.
Qed.

Lemma addLogicUnit_wf st u :
  wfIndex' st.1 -> wfIndex' (addLogicUnit formFieldIds st u).1.
Proof.
  intros Hwf. unfold addLogicUnit.
  destruct (allConditionsExist _ _); simpl; [|exact Hwf].
  now apply fold_addShowTarget_wf.
Qed.

Lemma fold_addLogicUnit_wf us st :
  wfIndex' st.1 -> wfIndex' (fold_left (addLogicUnit formFieldIds) us st).1.
Proof.
  revert st. induction us as [|u us IH]; intros st Hwf; simpl; [exact Hwf|].
  apply IH, addLogicUnit_wf, Hwf.
Qed.


Lemma fold_addLogicUnit_entries us st id :
  default [] ((fold_left (addLogicUnit formFieldIds) us st).1 !! id) =
  default [] (st.1 !! id)
  ++ (if bool_decide (id ∈ formFieldIds) then flat_map (unitGroups' id) us else []).
Proof.
  revert st. induction us as [|u us IH]; intros st; simpl.
  - destruct (bool_decide _); now rewrite app_nil_r.
  - rewrite IH. unfold addLogicUnit, unitGroups.
    destruct (allConditionsExist (conditions u) formFieldIds); simpl.
    + rewrite fold_addShowTarget_entries.
      destruct (bool_decide _); now rewrite <- ?app_assoc, ?app_nil_r.
    + reflexivity.
Qed.

(** The flag [hasInvalidLogic] is raised by the units with a condition on an
    unknown field, and by nothing else. *)
Lemma fold_addLogicUnit_flag us st :
  (fold_left (addLogicUnit formFieldIds) us st).2 =
  st.2 || existsb (fun u => negb (allConditionsExist (conditions u) formFieldIds)) us.
Proof.
  revert st. induction us as [|u us IH]; intros st; simpl.
  - now rewrite orb_false_r.
  - rewrite IH. unfold addLogicUnit.
    destruct (allConditionsExist (conditions u) formFieldIds); simpl; [reflexivity|].
    now rewrite orb_true_r.
Qed.

End Index.

Section IndexOfForm.

Lemma groupLogicUnitsByField_io_unfold form :
  groupLogicUnitsByField_io form =
  let st := fold_left (addLogicUnit (formFieldIdSet form))
                      (List.filter isShowFieldsLogic (default [] (form_logics form)))
                      (∅, false) in
  (st.1, if st.2 && truthyId (form_id form)
         then [invalidLogicMessage (default EmptyString (form_id form))] else []).
Proof.
  unfold groupLogicUnitsByField_io. cbv zeta.
  destruct (fold_left _ _ _) as [g b]. reflexivity.
Qed.

Lemma wfIndex_empty ids : wfIndex ids ∅.
Proof. intros id l H. rewrite lookup_empty in H. discriminate. Qed.

Lemma groupLogicUnitsByField_wf form :
  wfIndex (formFieldIdSet form) (groupLogicUnitsByField form).
Proof.
  unfold groupLogicUnitsByField. rewrite groupLogicUnitsByField_io_unfold.
  cbv zeta. simpl fst. apply fold_addLogicUnit_wf, wfIndex_empty.
Qed.

Lemma flat_map_filter_guard {A B} (p : A -> bool) (f : A -> list B) l :
  flat_map f (List.filter p l) = flat_map (fun x => if p x then f x else []) l.
Proof.
  induction l as [|x l IH]; simpl; [reflexivity|].
  destruct (p x); simpl; now rewrite IH.
Qed.

Lemma groupsShowing_flat_map form id :
  flat_map (unitGroups (formFieldIdSet form) id)
           (List.filter isShowFieldsLogic (default [] (form_logics form)))
  = groupsShowing form id.
Proof.
  rewrite flat_map_filter_guard. unfold groupsShowing, retainedUnit, unitGroups.
  apply flat_map_ext. intros u. now destruct (isShowFieldsLogic u).
Qed.

(** The entry of [id] in the index of a form. *)
Lemma groupLogicUnitsByField_lookup form id :
  groupLogicUnitsByField form !! id =
  if bool_decide (id ∈ formFieldIdSet form)
  then match groupsShowing form id with
       | [] => None
       | groups => Some groups
       end
  else None.
Proof.
  pose proof (groupLogicUnitsByField_wf form) as Hwf.
  assert (He : default [] (groupLogicUnitsByField form !! id) =
               if bool_decide (id ∈ formFieldIdSet form)
               then groupsShowing form id else []).
  { unfold groupLogicUnitsByField. rewrite groupLogicUnitsByField_io_unfold.
    cbv zeta. simpl fst. rewrite fold_addLogicUnit_entries.
    simpl fst. rewrite lookup_empty. simpl.
    now rewrite groupsShowing_flat_map. }
  destruct (groupLogicUnitsByField form !! id) as [l|] eqn:E.
  - destruct (Hwf _ _ E) as [Hin Hne].
    rewrite (bool_decide_eq_true_2 _ Hin) in *. simpl in He. rewrite <- He.
    destruct l; [congruence | reflexivity].
  - simpl in He. destruct (bool_decide _); [|reflexivity]. now rewrite <- He.
Qed.

Lemma formFieldIdSet_withLogics form logics :
  formFieldIdSet (withLogics form logics) = formFieldIdSet form.
Proof. reflexivity. Qed.

Lemma groupsShowing_withLogics form logics id :
  groupsShowing (withLogics form logics) id =
  flat_map (fun u => if retainedUnit (formFieldIdSet form) u
                     then map (fun _ => conditions u)
                              (List.filter (String.eqb id) (show u))
                     else [])
           logics.
Proof. reflexivity. Qed.

Lemma allConditionsExist_false conds (ids : FieldIdSet) :
  allConditionsExist conds ids = false <->
  exists c, In c conds /\ field c ∉ ids.
Proof.
  unfold allConditionsExist. split.
  - intros H. induction conds as [|c conds IH]; simpl in H; [discriminate|].
    apply andb_false_iff in H as [H|H].
    + exists c. split; [now left|]. now apply bool_decide_eq_false in H.
    + destruct (IH H) as (c' & Hin & Hc'). exists c'. split; [now right | exact Hc'].
  - intros (c & Hin & Hc). apply not_true_is_false. intros Hall.
    rewrite forallb_forall in Hall. specialize (Hall _ Hin).
    apply bool_decide_eq_true in Hall. contradiction.
Qed.

Lemma allConditionsExist_true conds (ids : FieldIdSet) :
  allConditionsExist conds ids = true <->
  forall c, In c conds -> field c ∈ ids.
Proof.
  unfold allConditionsExist. rewrite forallb_forall. split; intros H c Hin.
  - apply (bool_decide_eq_true_1 _), H, Hin.
  - apply (bool_decide_eq_true_2 _), H, Hin.
Qed.

Lemma filter_known_targets id (ids : FieldIdSet) targets :
  id ∈ ids ->
  List.filter (String.eqb id) (List.filter (fun t => bool_decide (t ∈ ids)) targets)
  = List.filter (String.eqb id) targets.
Proof.
  intros Hin. induction targets as [|t ts IH]; simpl; [reflexivity|].
  destruct (bool_decide_reflect (t ∈ ids)) as [Ht|Ht]; simpl.
  - now rewrite IH.
  - destruct (String.eqb_spec id t) as [->|]; [contradiction | exact IH].
Qed.

End IndexOfForm.

(** ** The claims on the index *)

Section IndexClaims.

Lemma In_groupsShowing form id g :
  In g (groupsShowing form id) <->
  exists u, In u (default [] (form_logics form))
            /\ logicType u = LogicType.ShowFields
            /\ (forall c, In c (conditions u) -> field c ∈ formFieldIdSet form)
            /\ In id (show u) /\ g = conditions u.
Proof.
  unfold groupsShowing. rewrite in_flat_map. split.
  - intros (u & Hu & Hg). exists u. split; [exact Hu|].
    unfold retainedUnit in Hg.
    destruct (isShowFieldsLogic u) eqn:Hs; [|destruct Hg].
    destruct (allConditionsExist _ _) eqn:Ha; [|destruct Hg].
    simpl in Hg. apply in_map_iff in Hg as (t & <- & Ht).
    apply filter_In in Ht as [Ht Heq]. apply String.eqb_eq in Heq as <-.
    split; [now apply bool_decide_eq_true in Hs|].
    split; [now apply allConditionsExist_true|]. auto.
  - intros (u & Hu & Hs & Ha & Ht & ->). exists u. split; [exact Hu|].
    unfold retainedUnit, isShowFieldsLogic.
    rewrite (bool_decide_eq_true_2 _ Hs).
    rewrite (proj2 (allConditionsExist_true _ _) Ha). simpl.
    apply in_map_iff. exists id. split; [reflexivity|].
    apply filter_In. split; [exact Ht | apply String.eqb_refl].
Qed.

(** C5: the entry of a target in the index holds, in authoring order, the
    condition groups of the ShowFields units whose conditions are all on fields
    of the form and which show that target; only fields of the form have an
    entry.  A unit with a condition on an unknown field may be removed without
    changing the index, and so may the unknown show-targets of any unit. *)
Theorem groupLogicUnitsByField_index form :
  (forall id,
     groupLogicUnitsByField form !! id =
     if bool_decide (id ∈ formFieldIdSet form)
     then match groupsShowing form id with [] => None | groups => Some groups end
     else None)
  /\ (forall id groups g,
        groupLogicUnitsByField form !! id = Some groups ->
        (In g groups <->
         exists u, In u (default [] (form_logics form))
                   /\ logicType u = LogicType.ShowFields
                   /\ (forall c, In c (conditions u) -> field c ∈ formFieldIdSet form)
                   /\ In id (show u) /\ g = conditions u))
  /\ (forall l1 u l2 c,
        form_logics form = Some (l1 ++ u :: l2) ->
        In c (conditions u) -> field c ∉ formFieldIdSet form ->
        groupLogicUnitsByField form = groupLogicUnitsByField (withLogics form (l1 ++ l2)))
  /\ (forall l1 u l2,
        form_logics form = Some (l1 ++ u :: l2) ->
        groupLogicUnitsByField form =
        groupLogicUnitsByField
          (withLogics form
             (l1 ++ withShow u (List.filter
                                  (fun t => bool_decide (t ∈ formFieldIdSet form))
                                  (show u)) :: l2))).
Proof.
  split; [apply groupLogicUnitsByField_lookup|]. split; [|split].
  - intros id groups g H. rewrite groupLogicUnitsByField_lookup in H.
    rewrite <- In_groupsShowing.
    destruct (bool_decide _); [|discriminate].
    destruct (groupsShowing form id); [discriminate|]. now injection H as <-.
  - intros l1 u l2 c Hl Hc Hf. apply map_eq. intros id.
    rewrite !groupLogicUnitsByField_lookup, formFieldIdSet_withLogics.
    rewrite groupsShowing_withLogics. unfold groupsShowing. rewrite Hl. simpl default.
    rewrite !flat_map_app. simpl flat_map.
    assert (Hr : retainedUnit (formFieldIdSet form) u = false).
    { unfold retainedUnit. apply andb_false_iff. right.
      apply allConditionsExist_false. eauto. }
    rewrite Hr. reflexivity.
  - intros l1 u l2 Hl. apply map_eq. intros id.
    rewrite !groupLogicUnitsByField_lookup, formFieldIdSet_withLogics.
    destruct (bool_decide_reflect (id ∈ formFieldIdSet form)) as [Hin|]; [|reflexivity].
    rewrite groupsShowing_withLogics. unfold groupsShowing. rewrite Hl. simpl default.
    rewrite !flat_map_app. simpl flat_map.
    rewrite (filter_known_targets _ _ _ Hin). reflexivity.
Qed.


Lemma groupLogicUnitsByField_index_witness :
  groupLogicUnitsByField Samples.sampleForm !! "b" = Some [Samples.onA]
  /\ groupLogicUnitsByField Samples.sampleForm !! "c" = None
  /\ groupLogicUnitsByField Samples.sampleForm !! "deleted" = None
  /\ groupLogicUnitsByField Samples.sampleForm =
     groupLogicUnitsByField
       (withLogics Samples.sampleForm [mkLogic LogicType.ShowFields Samples.onA ["b"; "deleted"]]).
Proof.
  destruct (groupLogicUnitsByField_index Samples.sampleForm) as (Hlookup & _ & Hdrop & _).
  split; [rewrite Hlookup; reflexivity|].
  split; [rewrite Hlookup; reflexivity|].
  split; [rewrite Hlookup; reflexivity|].
  apply (Hdrop [mkLogic LogicType.ShowFields Samples.onA ["b"; "deleted"]]
               (mkLogic LogicType.ShowFields Samples.onGone ["c"]) []
               (mkCondition "gone" LogicConditionState.Equal (Js.JsString "x")));
    [reflexivity | right; left; reflexivity | vm_compute; discriminate].
Defined.

End IndexClaims.


Section DiagnosticClaims.

(** C9, as stated, fails: a unit whose only show-target is a deleted field is
    skipped by the index build, yet no diagnostic line is written. *)
Lemma unknown_targets_write_no_diagnostic :
  existsb (malformedUnit (formFieldIdSet Samples.deletedTargetForm))
          (default [] (form_logics Samples.deletedTargetForm)) = true
  /\ groupLogicUnitsByField Samples.deletedTargetForm = ∅
  /\ (groupLogicUnitsByField_io Samples.deletedTargetForm).2 = [].
Proof. repeat split; vm_compute; reflexivity. Qed.

Lemma groupsShowing_valid_only form id :
  groupsShowing
    (withLogics form
       (List.filter (fun u => allConditionsExist (conditions u) (formFieldIdSet form))
                    (default [] (form_logics form)))) id
  = groupsShowing form id.
Proof.
  rewrite groupsShowing_withLogics, flat_map_filter_guard. unfold groupsShowing.
  apply flat_map_ext. intros u. unfold retainedUnit.
  destruct (allConditionsExist _ _); [reflexivity|].
  now rewrite andb_false_r.
Qed.

(** C9, amended: the index build writes one diagnostic line exactly when the
    form has an id and some ShowFields unit has a condition on an unknown
    field, and no line otherwise; in every case the index returned is the one
    built from the units whose conditions are all on fields of the form. *)
Theorem groupLogicUnitsByField_diagnostic form :
  ((groupLogicUnitsByField_io form).2
   = [invalidLogicMessage (default EmptyString (form_id form))]
   \/ (groupLogicUnitsByField_io form).2 = [])
  /\ ((groupLogicUnitsByField_io form).2
      = [invalidLogicMessage (default EmptyString (form_id form))]
      <-> truthyId (form_id form) = true
          /\ exists u c, In u (default [] (form_logics form))
                         /\ logicType u = LogicType.ShowFields
                         /\ In c (conditions u)
                         /\ field c ∉ formFieldIdSet form)
  /\ (groupLogicUnitsByField_io form).1
     = groupLogicUnitsByField
         (withLogics form
            (List.filter
               (fun u => allConditionsExist (conditions u) (formFieldIdSet form))
               (default [] (form_logics form)))).
Proof.
  assert (Hflag :
    (fold_left (addLogicUnit (formFieldIdSet form))
               (List.filter isShowFieldsLogic (default [] (form_logics form)))
               (∅, false)).2 = true
    <-> exists u c, In u (default [] (form_logics form))
                    /\ logicType u = LogicType.ShowFields
                    /\ In c (conditions u) /\ field c ∉ formFieldIdSet form).
  { rewrite fold_addLogicUnit_flag. simpl. rewrite existsb_exists. split.
    - intros (u & Hu & Hinv). apply filter_In in Hu as [Hu Hs].
      apply negb_true_iff, allConditionsExist_false in Hinv as (c & Hc & Hf).
      exists u, c. repeat split; auto. now apply bool_decide_eq_true in Hs.
    - intros (u & c & Hu & Hs & Hc & Hf). exists u. split.
      + apply filter_In. split; [exact Hu|]. now apply bool_decide_eq_true_2.
      + apply negb_true_iff, allConditionsExist_false. eauto. }
  rewrite groupLogicUnitsByField_io_unfold. cbv zeta. simpl fst. simpl snd.
  split; [|split].
  - destruct (_ && _); auto.
  - rewrite <- Hflag.
    destruct (fold_left _ _ _).2, (truthyId (form_id form)); simpl;
      split; try tauto; try discriminate; intros [? ?]; discriminate.
  - apply map_eq. intros id.
    rewrite groupLogicUnitsByField_lookup, formFieldIdSet_withLogics.
    rewrite groupsShowing_valid_only.
    rewrite <- groupLogicUnitsByField_lookup.
    unfold groupLogicUnitsByField. rewrite groupLogicUnitsByField_io_unfold.
    reflexivity.
Qed.

Lemma groupLogicUnitsByField_diagnostic_witness :
  (groupLogicUnitsByField_io Samples.sampleForm).2 = [invalidLogicMessage "form1"]
  /\ (groupLogicUnitsByField_io Samples.sampleForm).1 !! "b" = Some [Samples.onA].
Proof.
  destruct (groupLogicUnitsByField_diagnostic Samples.sampleForm) as (_ & Hline & Hindex).
  split.
  - apply Hline. split; [reflexivity|].
    exists (mkLogic LogicType.ShowFields Samples.onGone ["c"]),
           (mkCondition "gone" LogicConditionState.Equal (Js.JsString "x")).
    split; [right; left; reflexivity|]. split; [reflexivity|].
    split; [right; left; reflexivity | vm_compute; discriminate].
  - rewrite Hindex. vm_compute. reflexivity.
Defined.

End DiagnosticClaims.

(** ** The visibility resolver: satisfaction of a group *)


Section Satisfaction.

Variable submission : list LogicFieldSchemaOrResponse.

Lemma findConditionField_id fieldId f :
  findConditionField submission fieldId = Some f -> _id f = fieldId.
Proof.
  unfold findConditionField. intros H. apply find_some in H as [_ H].
  now apply String.eqb_eq.
Qed.

Lemma findConditionField_none fieldId :
  findConditionField submission fieldId = None <->
  forall f, In f submission -> _id f <> fieldId.
Proof.
  unfold findConditionField. split.
  - intros H f Hin Heq. apply (find_none _ _ H) in Hin.
    apply String.eqb_neq in Hin. contradiction.
  - intros H. destruct (List.find _ _) as [f|] eqn:E; [|reflexivity].
    apply find_some in E as [Hin Heq]. apply String.eqb_eq in Heq.
    now apply H in Hin.
Qed.

Lemma isLogicUnitSatisfied_iff group (visible : FieldIdSet) :
  isLogicUnitSatisfied submission group visible = true
  <-> groupSatisfied submission visible group.
Proof.
  unfold isLogicUnitSatisfied, groupSatisfied. rewrite forallb_forall.
  split; intros H c Hc; specialize (H c Hc).
  - destruct (findConditionField submission (field c)) as [f|] eqn:E; [|discriminate].
    apply andb_true_iff in H as [Hv Hf]. apply bool_decide_eq_true in Hv.
    rewrite (findConditionField_id _ _ E) in Hv. eauto.
  - destruct H as (f & E & Hv & Hf). rewrite E, Hf, andb_true_r.
    apply bool_decide_eq_true_2. now rewrite (findConditionField_id _ _ E).
Qed.

End Satisfaction.

(** ** The visibility resolver: one sweep *)

Section Sweep.

Variable submission : list LogicFieldSchemaOrResponse.
Variable index : GroupedLogic.

Local Abbreviation showable' := (showable submission index).
Local Abbreviation sweepField' := (sweepField submission index).

Lemma groupSatisfied_mono (V W : FieldIdSet) group :
  V ⊆ W -> groupSatisfied submission V group -> groupSatisfied submission W group.
Proof.
  intros Hsub H c Hc. destruct (H c Hc) as (f & Hf & Hv & Hok).
  exists f. repeat split; auto.
Qed.

(** Satisfaction only grows with the visible set. *)
Lemma showable_mono (V W : FieldIdSet) id :
  V ⊆ W -> showable' V id -> showable' W id.
Proof.
  intros Hsub [Hnone | (groups & group & Hg & Hin & Hsat)]; [now left|].
  right. exists groups, group. eauto using groupSatisfied_mono.
Qed.

Lemma showable_bool (V : FieldIdSet) id :
  match index !! id with
  | None => true
  | Some units =>
      existsb (fun logicUnit => isLogicUnitSatisfied submission logicUnit V) units
  end = true <-> showable' V id.
Proof.
  unfold showable. destruct (index !! id) as [units|]; [|intuition].
  rewrite existsb_exists. split.
  - intros (group & Hin & Hsat). right. exists units, group.
    apply isLogicUnitSatisfied_iff in Hsat. auto.
  - intros [Hnone | (groups & group & [= <-] & Hin & Hsat)]; [discriminate|].
    exists group. split; [exact Hin|]. now apply isLogicUnitSatisfied_iff.
Qed.

(** What the body of the sweep does to one field. *)
Lemma sweepField_cases st fld :
  ((field_id fld ∉ st.1) /\ showable' st.1 (field_id fld)
   /\ sweepField' st fld = ({[field_id fld]} ∪ st.1, true))
  \/ ((field_id fld ∈ st.1 \/ ~ showable' st.1 (field_id fld))
      /\ sweepField' st fld = st).
Proof.
  unfold sweepField.
  destruct (bool_decide_reflect (field_id fld ∈ st.1)) as [Hin|Hnin]; simpl.
  - right. auto.
  - destruct (match index !! field_id fld with None => true | Some _ => _ end) eqn:E.
    + left. apply showable_bool in E. auto.
    + right. split; [|reflexivity]. right. intros H.
      apply showable_bool in H. congruence.
Qed.

Lemma sweep_fold_extensive fields st :
  st.1 ⊆ (fold_left sweepField' fields st).1.
Proof.
  revert st. induction fields as [|fld fields IH]; intros st; simpl; [done|].
  etrans; [|apply IH].
  destruct (sweepField_cases st fld) as [(_ & _ & ->) | (_ & ->)]; simpl; set_solver.
Qed.

(** Every id that a sweep adds is the id of a form field that may be shown,
    given the set the sweep ends with. *)
Lemma sweep_fold_justified fields st id :
  id ∈ (fold_left sweepField' fields st).1 ->
  id ∈ st.1
  \/ (In id (map field_id fields)
      /\ showable' (fold_left sweepField' fields st).1 id).
Proof.
  revert st. induction fields as [|fld fields IH]; intros st; simpl; [auto|].
  intros H. destruct (IH _ H) as [Hold | [Hin Hs]]; [|auto].
  destruct (sweepField_cases st fld) as [(Hn & Hs & E) | (_ & E)];
    rewrite E in Hold |- *; simpl in Hold; [|auto].
  apply elem_of_union in Hold as [Hnew%elem_of_singleton | Hold]; [|auto].
  subst id. right. split; [auto|].
  eapply showable_mono; [|exact Hs].
  etrans; [|apply sweep_fold_extensive]. simpl. set_solver.
Qed.

(** A sweep stays below every set that is closed under the visibility rule. *)
Lemma sweep_fold_below (P : FieldIdSet) fields st :
  (forall id, In id (map field_id fields) -> showable' P id -> id ∈ P) ->
  st.1 ⊆ P -> (fold_left sweepField' fields st).1 ⊆ P.
Proof.
  revert st. induction fields as [|fld fields IH]; intros st Hclosed Hsub; simpl;
    [exact Hsub|].
  apply IH; [intros id Hid; apply Hclosed; now right|].
  destruct (sweepField_cases st fld) as [(_ & Hs & ->) | (_ & ->)]; simpl;
    [|exact Hsub].
  assert (Hfld : field_id fld ∈ P).
  { apply Hclosed; [now left|]. eapply showable_mono; eauto. }
  intros x [->%elem_of_singleton | Hx]%elem_of_union; auto.
Qed.

(** A sweep that leaves the flag down has changed nothing, and no hidden field
    could be shown. *)
Lemma sweep_fold_unchanged fields st :
  (fold_left sweepField' fields st).2 = false ->
  st.2 = false
  /\ (fold_left sweepField' fields st).1 = st.1
  /\ forall fld, In fld fields ->
       field_id fld ∈ st.1 \/ ~ showable' st.1 (field_id fld).
Proof.
  revert st. induction fields as [|fld fields IH]; intros st; simpl.
  - intros H. split; [exact H|]. split; [reflexivity|]. intros fld [].
  - intros H. destruct (IH _ H) as (Hflag & Hset & Hrest).
    destruct (sweepField_cases st fld) as [(_ & _ & E) | (Hfld & E)];
      rewrite E in Hflag, Hset, Hrest; [discriminate|].
    rewrite E. repeat split; auto. intros fld' [<- | Hin]; auto.
Qed.

(** A sweep that raises the flag has added an id. *)
Lemma sweep_fold_changed fields st :
  (fold_left sweepField' fields st).2 = true ->
  st.2 = true \/ exists id, id ∈ (fold_left sweepField' fields st).1 /\ id ∉ st.1.
Proof.
  revert st. induction fields as [|fld fields IH]; intros st; simpl; [auto|].
  intros H. destruct (sweepField_cases st fld) as [(Hn & _ & E) | (_ & E)].
  - right. exists (field_id fld). split; [|exact Hn].
    apply sweep_fold_extensive. rewrite E. simpl. set_solver.
  - rewrite E in H |- *. apply IH, H.
Qed.

End Sweep.

(** ** The visibility resolver: the loop *)

Section Loop.

Variable submission : list LogicFieldSchemaOrResponse.
Variable index : GroupedLogic.
Variable fields : list IFieldSchema.

Local Abbreviation ids := (list_to_set (map field_id fields) : FieldIdSet).
Local Abbreviation sweep' := (sweep submission index fields).
Local Abbreviation loop := (fun fuel => whileChangesMade fuel submission index fields).
Local Abbreviation justified' := (justified submission index fields).

Lemma size_list_to_set_le (l : list string) :
  size (list_to_set l : FieldIdSet) <= length l.
Proof.
  induction l as [|x l IH].
  - rewrite list_to_set_nil, size_empty. simpl. lia.
  - rewrite list_to_set_cons, size_union_alt, size_singleton.
    assert (Hle : size (list_to_set l ∖ {[x]} : FieldIdSet)
                  <= size (list_to_set l : FieldIdSet)).
    { apply subseteq_size. intros y Hy. now apply elem_of_difference in Hy as [? _]. }
    simpl. lia.
Qed.

Lemma sweep_extensive (V : FieldIdSet) : V ⊆ (sweep' V).1.
Proof. apply (sweep_fold_extensive submission index fields (V, false)). Qed.

Lemma sweep_new_ids (V : FieldIdSet) id :
  id ∈ (sweep' V).1 -> id ∈ V \/ id ∈ ids.
Proof.
  intros H.
  destruct (sweep_fold_justified submission index fields (V, false) id H)
    as [Hold | [Hin _]]; [now left|].
  right. apply elem_of_list_to_set, list_elem_of_In, Hin.
Qed.

Lemma sweep_bounded (V : FieldIdSet) : V ⊆ ids -> (sweep' V).1 ⊆ ids.
Proof. intros Hsub id H. destruct (sweep_new_ids V id H); auto. Qed.

(** A sweep that raises the flag makes the set strictly larger. *)
Lemma sweep_strict (V : FieldIdSet) : (sweep' V).2 = true -> V ⊂ (sweep' V).1.
Proof.
  intros H. destruct (sweep_fold_changed submission index fields (V, false) H)
    as [Hf | (id & Hin & Hnin)]; [discriminate|].
  split; [apply sweep_extensive|]. intros Hsub. apply Hnin, Hsub, Hin.
Qed.

Lemma sweep_stable (V : FieldIdSet) : (sweep' V).2 = false -> (sweep' V).1 = V.
Proof.
  intros H. now destruct (sweep_fold_unchanged submission index fields (V, false) H)
    as (_ & ? & _).
Qed.

(** The fields still hidden become fewer with every sweep that raises the
    flag. *)
Lemma sweep_measure (V : FieldIdSet) :
  (sweep' V).2 = true -> size (ids ∖ (sweep' V).1) < size (ids ∖ V).
Proof.
  intros H. apply subset_size.
  destruct (sweep_fold_changed submission index fields (V, false) H)
    as [Hf | (id & Hin & Hnin)]; [discriminate|].
  pose proof (sweep_extensive V) as Hext.
  split.
  { intros y Hy. apply elem_of_difference in Hy as [Hy Hn].
    apply elem_of_difference. split; [exact Hy|]. intros HV. apply Hn, Hext, HV. }
  intros Hsub. destruct (sweep_new_ids V id Hin) as [|Hid]; [contradiction|].
  assert (Hd : id ∈ ids ∖ V) by (apply elem_of_difference; auto).
  apply Hsub, elem_of_difference in Hd as [_ Hd]. contradiction.
Qed.

(** The loop exits within as many sweeps as there are hidden fields, plus
    one. *)
Lemma whileChangesMade_enough fuel (V : FieldIdSet) :
  size (ids ∖ V) < fuel ->
  exists R n, loop fuel V = Some (R, n) /\ n <= S (size (ids ∖ V)).
Proof.
  revert V. induction fuel as [|fuel IH]; intros V Hfuel; [lia|].
  simpl. destruct (sweep' V).2 eqn:Hflag.
  - pose proof (sweep_measure V Hflag) as Hless.
    destruct (IH (sweep' V).1) as (R & n & -> & Hn); [lia|].
    exists R, (S n). split; [reflexivity | lia].
  - exists (sweep' V).1, 1. split; [reflexivity | lia].
Qed.

(** More fuel does not change a run that reached the exit. *)
Lemma whileChangesMade_fuel fuel fuel' (V : FieldIdSet) r :
  loop fuel V = Some r -> fuel <= fuel' -> loop fuel' V = Some r.
Proof.
  revert fuel' V r. induction fuel as [|fuel IH]; intros fuel' V r; [discriminate|].
  destruct fuel' as [|fuel']; [lia|]. simpl.
  destruct (sweep' V).2; [|auto].
  destruct (whileChangesMade fuel _ _ _ _) as [[R n]|] eqn:E; [|discriminate].
  intros [= <-] Hle. rewrite (IH fuel' _ _ E); [reflexivity | lia].
Qed.


Lemma sweep_justified (V : FieldIdSet) : justified' V -> justified' (sweep' V).1.
Proof.
  intros HV id H.
  destruct (sweep_fold_justified submission index fields (V, false) id H)
    as [Hold | [Hin Hs]].
  - destruct (HV id Hold) as [Hid Hs]. split; [exact Hid|].
    eapply showable_mono; [apply sweep_extensive | exact Hs].
  - split; [|exact Hs]. apply elem_of_list_to_set, list_elem_of_In, Hin.
Qed.

(** What the loop returns: a set above the initial one, justified if the
    initial one is, closed under the visibility rule, and below every closed
    set that is above the initial one. *)
Lemma whileChangesMade_result fuel (V R : FieldIdSet) n :
  loop fuel V = Some (R, n) ->
  V ⊆ R
  /\ (justified' V -> justified' R)
  /\ (forall id, id ∈ ids -> showable submission index R id -> id ∈ R)
  /\ (forall P : FieldIdSet,
        (forall id, id ∈ ids -> showable submission index P id -> id ∈ P) ->
        V ⊆ P -> R ⊆ P).
Proof.
  revert V R n. induction fuel as [|fuel IH]; intros V R n; [discriminate|].
  simpl. destruct (sweep' V).2 eqn:Hflag.
  - destruct (whileChangesMade fuel _ _ _ _) as [[R' n']|] eqn:E; [|discriminate].
    intros [= <- <-]. destruct (IH _ _ _ E) as (Hsub & Hj & Hc & Hl).
    split; [etrans; [apply sweep_extensive | exact Hsub]|].
    split; [intros HV; apply Hj, sweep_justified, HV|].
    split; [exact Hc|].
    intros P HP HVP. apply Hl; [exact HP|].
    apply (sweep_fold_below submission index P fields (V, false)); [|exact HVP].
    intros id Hid. apply HP, elem_of_list_to_set, list_elem_of_In, Hid.
  - intros [= <- <-]. rewrite (sweep_stable V Hflag).
    split; [done|]. split; [auto|]. split; [|auto].
    destruct (sweep_fold_unchanged submission index fields (V, false) Hflag)
      as (_ & _ & Hnone).
    intros id Hid Hs.
    apply elem_of_list_to_set, list_elem_of_In, in_map_iff in Hid as (fld & <- & Hfld).
    destruct (Hnone fld Hfld) as [Hin | Hno]; [exact Hin | contradiction].
Qed.

End Loop.

(** ** The claims on the visibility resolver *)

Section ResolverClaims.

Variable submission : list LogicFieldSchemaOrResponse.
Variable form : IFormDocument.

Local Abbreviation fields := (default [] (form_fields form)).
Local Abbreviation index := (groupLogicUnitsByField form).

(** The run behind [getVisibleFieldIds] reaches the exit of the loop. *)
Lemma getVisibleFieldIds_run :
  exists sweeps,
    getVisibleFieldIdsWithin (S (length fields)) submission form
    = Some (getVisibleFieldIds submission form, sweeps)
    /\ sweeps <= S (length fields).
Proof.
  pose proof (size_list_to_set_le (map field_id fields)) as Hsize.
  rewrite length_map in Hsize.
  assert (Hd : size (list_to_set (map field_id fields) ∖ (∅ : FieldIdSet))
               <= length fields).
  { etrans; [apply subseteq_size|exact Hsize].
    intros y Hy. now apply elem_of_difference in Hy as [? _]. }
  destruct (whileChangesMade_enough submission index fields (S (length fields)) ∅)
    as (R & n & Hrun & Hn); [lia|].
  exists n. unfold getVisibleFieldIds, getVisibleFieldIdsWithin.
  rewrite Hrun. split; [reflexivity | lia].
Qed.

Lemma justified_empty : justified submission index fields ∅.
Proof. intros id H. now apply elem_of_empty in H. Qed.

(** C2: the set returned by the resolver is the least fixed point of the
    visibility rule: a field of the form is in it exactly when it has no entry
    in the index or one of its groups has every condition's subject in the set
    and evaluating true against the subject's answer, and the set is included
    in every set closed under that rule. *)
Theorem getVisibleFieldIds_least_fixed_point :
  (forall id,
     id ∈ getVisibleFieldIds submission form
     <-> visibleStep submission form (getVisibleFieldIds submission form) id)
  /\ (forall P : FieldIdSet,
        (forall id, visibleStep submission form P id -> id ∈ P) ->
        getVisibleFieldIds submission form ⊆ P).
Proof.
  destruct getVisibleFieldIds_run as (n & Hrun & _).
  apply whileChangesMade_result in Hrun as (_ & Hj & Hc & Hl).
  specialize (Hj justified_empty). split.
  - intros id. unfold visibleStep. split.
    + apply Hj.
    + intros [Hid Hs]. now apply Hc.
  - intros P HP. apply Hl; [|set_solver].
    intros id Hid Hs. apply HP. split; assumption.
Qed.

(** C3: the loop of the resolver exits, after at most [|fields| + 1] sweeps,
    and every run that reaches the exit does so with the same set and the same
    number of sweeps: a sweep keeps the visible set within the ids of the
    form's fields, never removes an id, adds one whenever it raises the flag
    [changesMade], and changes nothing when it leaves the flag down. *)
Theorem getVisibleFieldIds_terminates :
  (exists sweeps,
     sweeps <= length fields + 1
     /\ (forall fuel, length fields + 1 <= fuel ->
           getVisibleFieldIdsWithin fuel submission form
           = Some (getVisibleFieldIds submission form, sweeps))
     /\ (forall fuel r,
           getVisibleFieldIdsWithin fuel submission form = Some r ->
           r = (getVisibleFieldIds submission form, sweeps)))
  /\ (forall V : FieldIdSet,
        V ⊆ formFieldIdSet form ->
        (sweep submission index fields V).1 ⊆ formFieldIdSet form
        /\ V ⊆ (sweep submission index fields V).1
        /\ ((sweep submission index fields V).2 = true ->
            V ⊂ (sweep submission index fields V).1)
        /\ ((sweep submission index fields V).2 = false ->
            (sweep submission index fields V).1 = V)).
Proof.
  split.
  - destruct getVisibleFieldIds_run as (n & Hrun & Hn).
    unfold getVisibleFieldIdsWithin in *.
    exists n. split; [lia|]. split.
    + intros fuel Hfuel. eapply whileChangesMade_fuel; [exact Hrun | lia].
    + intros fuel r Hr.
      pose proof (whileChangesMade_fuel _ _ _ _ (fuel `max` S (length fields)) _ _ Hr)
        as H1.
      pose proof (whileChangesMade_fuel _ _ _ _ (fuel `max` S (length fields)) _ _ Hrun)
        as H2.
      specialize (H1 ltac:(lia)). specialize (H2 ltac:(lia)).
      pose proof (eq_trans (eq_sym H1) H2) as E. now injection E.
  - intros V HV.
    split; [now apply sweep_bounded|].
    split; [apply sweep_extensive|].
    split; [apply sweep_strict | apply sweep_stable].
Qed.

(** C10: every id in the set returned by the resolver is the id of a field in
    the form's own field list, whatever entries the answers hold; and a group
    with a condition whose subject has no entry among the answers is not
    satisfied. *)
Theorem getVisibleFieldIds_within_form :
  (forall id, id ∈ getVisibleFieldIds submission form ->
              exists fld, In fld fields /\ field_id fld = id)
  /\ (forall (group : list IConditionSchema) (c : IConditionSchema) (V : FieldIdSet),
        In c group ->
        (forall f, In f submission -> _id f <> field c) ->
        isLogicUnitSatisfied submission group V = false).
Proof.
  split.
  - intros id H.
    destruct getVisibleFieldIds_run as (n & Hrun & _).
    apply whileChangesMade_result in Hrun as (_ & Hj & _).
    destruct (Hj justified_empty id H) as [Hid _].
    apply elem_of_list_to_set, list_elem_of_In, in_map_iff in Hid as (fld & E & Hin).
    eauto.
  - intros group c V Hc Hnone. apply not_true_is_false. intros Hsat.
    apply isLogicUnitSatisfied_iff in Hsat.
    destruct (Hsat c Hc) as (f & Hf & _).
    apply findConditionField_none in Hnone. congruence.
Qed.

End ResolverClaims.

Lemma getVisibleFieldIds_least_fixed_point_witness :
  visibleStep (Samples.answers "Option A" "150") Samples.form3
              (getVisibleFieldIds (Samples.answers "Option A" "150") Samples.form3)
              "e1".
Proof.
  apply (getVisibleFieldIds_least_fixed_point
           (Samples.answers "Option A" "150") Samples.form3).
  vm_compute. reflexivity.
Defined.

Lemma getVisibleFieldIds_terminates_witness :
  let V : FieldIdSet := {["d1"]} in
  let st := sweep (Samples.answers "Option A" "150")
                  (groupLogicUnitsByField Samples.form3) Samples.fields3 V in
  st.2 = true /\ V ⊂ st.1 /\ st.1 ⊆ formFieldIdSet Samples.form3.
Proof.
  destruct (getVisibleFieldIds_terminates
              (Samples.answers "Option A" "150") Samples.form3) as [_ Hsweep].
  destruct (Hsweep {["d1"]}) as (Hb & _ & Hs & _).
  - intros x Hx%elem_of_singleton. subst x. vm_compute. reflexivity.
  - split; [vm_compute; reflexivity|]. split; [|exact Hb].
    apply Hs. vm_compute. reflexivity.
Defined.

Lemma getVisibleFieldIds_within_form_witness :
  isLogicUnitSatisfied (Samples.answers "Option A" "150")
    [ mkCondition "d1" LogicConditionState.Equal (Samples.str "Option A");
      mkCondition "e1" LogicConditionState.Equal (Samples.str "x") ]
    {["d1"; "e1"; "n1"]} = false.
Proof.
  destruct (getVisibleFieldIds_within_form
              (Samples.answers "Option A" "150") Samples.form3) as [_ Hnone].
  apply (Hnone _ (mkCondition "e1" LogicConditionState.Equal (Samples.str "x"))).
  - right; left; reflexivity.
  - intros f [<- | [<- | []]]; discriminate.
Defined.

(** ** The submission gate *)


Section Gate.

Lemma find_filter {A} (p q : A -> bool) l :
  List.find p (List.filter q l) = List.find (fun x => q x && p x) l.
Proof.
  induction l as [|x l IH]; simpl; [reflexivity|].
  destruct (q x); simpl; [|exact IH]. destruct (p x); [reflexivity | exact IH].
Qed.

(** [find] returns the first element that passes the test. *)
Lemma find_first {A} (p : A -> bool) l x :
  List.find p l = Some x <->
  exists l1 l2, l = l1 ++ x :: l2 /\ p x = true /\ forall y, In y l1 -> p y = false.
Proof.
  split.
  - induction l as [|a l IH]; simpl; [discriminate|].
    destruct (p a) eqn:Ha.
    + intros [= <-]. exists [], l. repeat split; auto. intros y [].
    + intros H. destruct (IH H) as (l1 & l2 & -> & Hx & Hl1).
      exists (a :: l1), l2. repeat split; auto.
      intros y [<- | Hy]; auto.
  - intros (l1 & l2 & -> & Hx & Hl1).
    induction l1 as [|a l1 IH]; simpl.
    + now rewrite Hx.
    + rewrite (Hl1 a) by now left. apply IH. intros y Hy. apply Hl1. now right.
Qed.

Lemma find_none_iff {A} (p : A -> bool) l :
  List.find p l = None <-> forall y, In y l -> p y = false.
Proof.
  split; [apply find_none|].
  induction l as [|a l IH]; simpl; [reflexivity|].
  intros H. rewrite (H a) by now left. apply IH. intros y Hy. apply H. now right.
Qed.

Variable submission : list LogicFieldSchemaOrResponse.
Variable form : IFormDocument.

Local Abbreviation blocks' := (blocks submission form).


Lemma blocks_iff (visible : FieldIdSet) u :
  blocks' visible u = true <-> blockingUnit submission form visible u.
Proof.
  unfold blocks, blockingUnit, isPreventSubmitLogic.
  rewrite !andb_true_iff, bool_decide_eq_true, allConditionsExist_true,
    isLogicUnitSatisfied_iff. tauto.
Qed.

Lemma blocks_false_iff (visible : FieldIdSet) u :
  blocks' visible u = false <-> ~ blockingUnit submission form visible u.
Proof. rewrite <- blocks_iff. now destruct (blocks' visible u). Qed.

Lemma getLogicUnitPreventingSubmit_find optVisible :
  getLogicUnitPreventingSubmit submission form optVisible =
  List.find (blocks' (default (getVisibleFieldIds submission form) optVisible))
            (default [] (form_logics form)).
Proof.
  unfold getLogicUnitPreventingSubmit, getPreventSubmitConditions.
  rewrite find_filter. destruct optVisible; reflexivity.
Qed.

(** C6: the gate returns the first unit, in authoring order, that is of type
    PreventSubmit, has all its conditions on fields of the form and has them
    all satisfied with visible subjects; it returns none exactly when no unit
    does; and without a visible set from the caller it uses the set that the
    resolver computes. *)
Theorem getLogicUnitPreventingSubmit_first_blocking optVisible :
  (forall u,
     getLogicUnitPreventingSubmit submission form optVisible = Some u
     <-> exists l1 l2,
           default [] (form_logics form) = l1 ++ u :: l2
           /\ blockingUnit submission form
                (default (getVisibleFieldIds submission form) optVisible) u
           /\ forall u', In u' l1 ->
                ~ blockingUnit submission form
                    (default (getVisibleFieldIds submission form) optVisible) u')
  /\ (getLogicUnitPreventingSubmit submission form optVisible = None
      <-> forall u, In u (default [] (form_logics form)) ->
            ~ blockingUnit submission form
                (default (getVisibleFieldIds submission form) optVisible) u)
  /\ getLogicUnitPreventingSubmit submission form None
     = getLogicUnitPreventingSubmit submission form
         (Some (getVisibleFieldIds submission form)).
Proof.
  rewrite getLogicUnitPreventingSubmit_find. split; [|split].
  - intros u. rewrite find_first. split.
    + intros (l1 & l2 & Hl & Hu & Hl1). exists l1, l2.
      split; [exact Hl|]. split; [now apply blocks_iff|].
      intros u' Hu'. now apply blocks_false_iff, Hl1.
    + intros (l1 & l2 & Hl & Hu & Hl1). exists l1, l2.
      split; [exact Hl|]. split; [now apply blocks_iff|].
      intros u' Hu'. now apply blocks_false_iff, Hl1.
  - rewrite find_none_iff. split; intros H u Hu; now apply blocks_false_iff, H.
  - reflexivity.
Qed.

End Gate.

Lemma getLogicUnitPreventingSubmit_first_blocking_witness :
  getLogicUnitPreventingSubmit (Samples.answers "Option A" "150") Samples.form3 None
  = Some Samples.blockBig.
Proof.
  destruct (getLogicUnitPreventingSubmit_first_blocking
              (Samples.answers "Option A" "150") Samples.form3 None) as [Hfirst _].
  apply Hfirst.
  exists [Samples.showE1], []. split; [reflexivity|]. split.
  - apply blocks_iff. vm_compute. reflexivity.
  - intros u' [<- | []] [Ht _]. discriminate.
Defined.

(** ** The order of the options does not matter *)

Section OptionOrder.

Local Abbreviation le := (fun a b : string => String.leb a b = true).

Lemma ascii_compare_trans_eq x y z :
  Ascii.compare x y = Eq -> Ascii.compare x z = Ascii.compare y z.
Proof. intros H. apply Ascii.compare_eq_iff in H. now subst. Qed.

Lemma ascii_compare_trans_lt x y z :
  Ascii.compare x y = Lt -> Ascii.compare y z <> Gt -> Ascii.compare x z = Lt.
Proof.
  unfold Ascii.compare. intros Hxy Hyz.
  apply N.compare_lt_iff in Hxy. apply N.compare_lt_iff.
  apply N.compare_le_iff in Hyz.
  eapply N.lt_le_trans; eassumption.
Qed.

Lemma string_leb_trans a b c :
  String.leb a b = true -> String.leb b c = true -> String.leb a c = true.
Proof.
  unfold String.leb. revert b c.
  induction a as [|x a IH]; intros [|y b] [|z c]; simpl; try congruence.
  destruct (Ascii.compare x y) eqn:Exy.
  - rewrite (ascii_compare_trans_eq _ _ z Exy).
    destruct (Ascii.compare y z); [apply IH | reflexivity | congruence].
  - intros _ H.
    rewrite (ascii_compare_trans_lt x y z Exy); [reflexivity|].
    intros E. rewrite E in H. discriminate.
  - discriminate.
Qed.

Lemma insertString_perm x l : Permutation (insertString x l) (x :: l).
Proof.
  induction l as [|y l IH]; simpl; [reflexivity|].
  destruct (String.leb x y); [reflexivity|].
  rewrite IH. apply perm_swap.
Qed.

Lemma sortStrings_perm l : Permutation (sortStrings l) l.
Proof.
  induction l as [|x l IH]; [reflexivity|].
  change (Permutation (insertString x (sortStrings l)) (x :: l)).
  rewrite insertString_perm. now apply perm_skip.
Qed.

Lemma insertString_sorted x l :
  StronglySorted le l -> StronglySorted le (insertString x l).
Proof.
  induction 1 as [|y l Hs IH Hy]; simpl.
  - constructor; constructor.
  - destruct (String.leb x y) eqn:E.
    + constructor; [now constructor|]. constructor; [exact E|].
      eapply Forall_impl; [exact Hy|]. intros z Hz.
      eapply string_leb_trans; eassumption.
    + constructor; [exact IH|].
      eapply Permutation_Forall; [symmetry; apply insertString_perm|].
      constructor; [|exact Hy].
      destruct (String.leb_total x y) as [H|H]; [congruence | exact H].
Qed.

Lemma sortStrings_sorted l : StronglySorted le (sortStrings l).
Proof.
  induction l as [|x l IH]; [constructor|].
  now apply (insertString_sorted x (sortStrings l)).
Qed.

(** Two sorted arrangements of the same strings are the same list. *)
Lemma sorted_perm_unique l r :
  StronglySorted le l -> StronglySorted le r -> Permutation l r -> l = r.
Proof.
  intros Hl. revert r. induction Hl as [|x l Hs IH Hx]; intros r Hr Hp.
  - now apply Permutation_nil in Hp.
  - destruct Hr as [|y r Hr Hy].
    + apply Permutation_sym, Permutation_nil in Hp. discriminate.
    + assert (x = y) as <-.
      { apply String.leb_antisym.
        - assert (Hin : In y (x :: l))
            by (eapply Permutation_in; [symmetry; exact Hp | now left]).
          destruct Hin as [<- | Hin].
          + destruct (String.leb_total x x); assumption.
          + rewrite Forall_forall in Hx. now apply Hx, list_elem_of_In.
        - assert (Hin : In x (y :: r))
            by (eapply Permutation_in; [exact Hp | now left]).
          destruct Hin as [<- | Hin].
          + destruct (String.leb_total y y); assumption.
          + rewrite Forall_forall in Hy. now apply Hy, list_elem_of_In. }
      f_equal. apply IH; [exact Hr|]. eapply Permutation_cons_inv, Hp.
Qed.

(** Sorting identifies exactly the arrays that are rearrangements of each
    other. *)
Lemma sortStrings_eq_iff l r :
  sortStrings l = sortStrings r <-> Permutation l r.
Proof.
  split.
  - intros E. rewrite <- (sortStrings_perm l), E. apply sortStrings_perm.
  - intros Hp. apply sorted_perm_unique; try apply sortStrings_sorted.
    rewrite !sortStrings_perm. exact Hp.
Qed.

(** An [AnyOf] condition cannot tell apart two answers that list the same
    options in different orders. *)
Lemma anyOf_ignores_option_order f f' c opts opts' oth :
  state c = LogicConditionState.AnyOf ->
  fieldType f = fieldType f' ->
  getCurrentValue f = Js.CheckboxConditionValue opts oth ->
  getCurrentValue f' = Js.CheckboxConditionValue opts' oth ->
  Permutation opts opts' ->
  isConditionFulfilled f c = isConditionFulfilled f' c.
Proof.
  intros Hst Hft Hv Hv' Hp.
  destruct (isLogicField f) eqn:Hl.
  - assert (Hl' : isLogicField f' = true) by (unfold isLogicField in *; congruence).
    rewrite !isConditionFulfilled_passed, Hst, Hv, Hv', Hft, !sortOptions_checkbox;
      try assumption; try (rewrite ?Hv, ?Hv'; reflexivity).
    rewrite (proj2 (sortStrings_eq_iff _ _) Hp).
    rewrite !(proj2 (isCheckboxConditionValue_iff _)) by eauto. reflexivity.
  - rewrite !isConditionFulfilled_not_logic_field; [reflexivity | | exact Hl].
    unfold isLogicField in *. congruence.
Qed.

End OptionOrder.

(** * Further properties of the resolver, the index and the gate *)

Section ResolverFacts.

(** The three facts that determine the set returned by the resolver. *)
Lemma resolver_lfp submission form :
  (forall id, id ∈ getVisibleFieldIds submission form ->
     id ∈ formFieldIdSet form
     /\ showable submission (groupLogicUnitsByField form)
                 (getVisibleFieldIds submission form) id)
  /\ (forall id, id ∈ formFieldIdSet form ->
        showable submission (groupLogicUnitsByField form)
                 (getVisibleFieldIds submission form) id ->
        id ∈ getVisibleFieldIds submission form)
  /\ (forall P : FieldIdSet,
        (forall id, id ∈ formFieldIdSet form ->
           showable submission (groupLogicUnitsByField form) P id -> id ∈ P) ->
        getVisibleFieldIds submission form ⊆ P).
Proof.
  destruct (getVisibleFieldIds_run submission form) as (n & Hrun & _).
  apply whileChangesMade_result in Hrun as (_ & Hj & Hc & Hl).
  specialize (Hj (justified_empty submission form)).
  split; [exact Hj|]. split; [exact Hc|].
  intros P HP. apply Hl; [exact HP|]. intros x Hx. now apply elem_of_empty in Hx.
Qed.

(** For a field of the form, the rule read on the units of the form. *)
Lemma showable_groups submission form (V : FieldIdSet) id :
  id ∈ formFieldIdSet form ->
  (showable submission (groupLogicUnitsByField form) V id
   <-> groupsShowing form id = []
       \/ exists g, In g (groupsShowing form id) /\ groupSatisfied submission V g).
Proof.
  intros Hid. unfold showable. rewrite groupLogicUnitsByField_lookup.
  rewrite (bool_decide_eq_true_2 _ Hid).
  destruct (groupsShowing form id) as [|g0 gs] eqn:E.
  - split; auto.
  - split.
    + intros [H | (groups & g & [= <-] & Hin & Hsat)]; [discriminate|]. eauto.
    + intros [H | (g & Hin & Hsat)]; [discriminate|]. right. eauto.
Qed.

(** Two runs over the same field ids whose rules agree return the same set. *)
Lemma resolver_ext submission form submission' form' :
  formFieldIdSet form = formFieldIdSet form' ->
  (forall (V : FieldIdSet) id,
     id ∈ formFieldIdSet form ->
     (showable submission (groupLogicUnitsByField form) V id
      <-> showable submission' (groupLogicUnitsByField form') V id)) ->
  getVisibleFieldIds submission form = getVisibleFieldIds submission' form'.
Proof.
  intros Hids Hrule.
  destruct (resolver_lfp submission form) as (_ & Hc & Hl).
  destruct (resolver_lfp submission' form') as (_ & Hc' & Hl').
  apply set_eq. intros x. split; revert x.
  - apply Hl. intros id Hid Hs. apply Hc'; [now rewrite <- Hids|].
    now apply Hrule.
  - apply Hl'. intros id Hid Hs. rewrite <- Hids in Hid. apply Hc; [exact Hid|].
    now apply Hrule.
Qed.

End ResolverFacts.

Section ResolverProperties.

Lemma groupsShowing_nil_iff form id :
  groupsShowing form id = [] <-> forall g, ~ In g (groupsShowing form id).
Proof.
  destruct (groupsShowing form id) as [|g gs]; split.
  - intros _ g [].
  - reflexivity.
  - discriminate.
  - intros H. exfalso. apply (H g). now left.
Qed.

(** The rule depends on the groups of a target only as a set. *)
Lemma showable_same_groups submission form form' (V : FieldIdSet) id :
  id ∈ formFieldIdSet form -> id ∈ formFieldIdSet form' ->
  (forall g, In g (groupsShowing form id) <-> In g (groupsShowing form' id)) ->
  (showable submission (groupLogicUnitsByField form) V id
   <-> showable submission (groupLogicUnitsByField form') V id).
Proof.
  intros Hid Hid' Hg. rewrite !showable_groups by assumption.
  rewrite !groupsShowing_nil_iff. split.
  - intros [H | (g & Hin & Hsat)].
    + left. intros g Hin. apply (H g), Hg, Hin.
    + right. exists g. split; [now apply Hg | exact Hsat].
  - intros [H | (g & Hin & Hsat)].
    + left. intros g Hin. apply (H g), Hg, Hin.
    + right. exists g. split; [now apply Hg | exact Hsat].
Qed.

(** X1: a field of the form that no ShowFields unit with valid conditions
    lists among its show-targets is visible, whatever the answers. *)
Theorem untargeted_field_is_visible submission form fld :
  In fld (default [] (form_fields form)) ->
  (forall u, In u (default [] (form_logics form)) ->
             retainedUnit (formFieldIdSet form) u = true ->
             ~ In (field_id fld) (show u)) ->
  field_id fld ∈ getVisibleFieldIds submission form.
Proof.
  intros Hfld Hnone.
  assert (Hid : field_id fld ∈ formFieldIdSet form).
  { apply elem_of_list_to_set, list_elem_of_In, in_map, Hfld. }
  destruct (resolver_lfp submission form) as (_ & Hc & _).
  apply Hc; [exact Hid|]. apply showable_groups; [exact Hid|]. left.
  apply groupsShowing_nil_iff. intros g Hg.
  apply In_groupsShowing in Hg as (u & Hu & Hs & Ha & Ht & _).
  apply (Hnone u Hu); [|exact Ht].
  unfold retainedUnit, isShowFieldsLogic.
  rewrite (bool_decide_eq_true_2 _ Hs). now apply allConditionsExist_true.
Qed.

Lemma untargeted_field_is_visible_witness :
  "n1" ∈ getVisibleFieldIds (Samples.answers "Option B" "7") Samples.form3.
Proof.
  apply (untargeted_field_is_visible _ Samples.form3
           (mkField "n1" BasicField.Number)).
  - right; right; left; reflexivity.
  - intros u [<- | [<- | []]] Hr; [|discriminate].
    intros [E | []]. discriminate.
Defined.

(** X2: fields that wait for each other stay hidden.  If every field of a
    set has an entry in the index and each of its groups has a condition on a
    field of the set, then no field of the set is ever visible. *)
Theorem mutually_dependent_fields_stay_hidden submission form (S : FieldIdSet) :
  (forall id, id ∈ S ->
     groupsShowing form id <> []
     /\ forall g, In g (groupsShowing form id) ->
                  exists c, In c g /\ field c ∈ S) ->
  forall id, id ∈ S -> id ∉ getVisibleFieldIds submission form.
Proof.
  intros HS id Hid Hvis.
  destruct (resolver_lfp submission form) as (_ & _ & Hl).
  assert (Hsub : getVisibleFieldIds submission form ⊆ formFieldIdSet form ∖ S).
  { apply Hl. intros x Hx Hs. apply elem_of_difference. split; [exact Hx|].
    intros HxS. destruct (HS x HxS) as [Hne Hdep].
    apply showable_groups in Hs as [Hnil | (g & Hg & Hsat)]; [contradiction | | exact Hx].
    destruct (Hdep g Hg) as (c & Hc & HcS).
    destruct (Hsat c Hc) as (f & _ & Hv & _).
    apply elem_of_difference in Hv as [_ Hv]. contradiction. }
  apply Hsub, elem_of_difference in Hvis as [_ Hvis]. contradiction.
Qed.

Lemma mutually_dependent_fields_stay_hidden_witness :
  "a" ∉ getVisibleFieldIds Samples.bothYes Samples.cyclic.
Proof.
  apply (mutually_dependent_fields_stay_hidden _ _ {["a"; "b"]}).
  - intros id Hid.
    assert (Hcase : id = "a" \/ id = "b").
    { apply elem_of_union in Hid as [H%elem_of_singleton | H%elem_of_singleton]; auto. }
    destruct Hcase as [-> | ->].
    + split; [vm_compute; discriminate|].
      intros g Hg. vm_compute in Hg. destruct Hg as [<- | []].
      eexists. split; [left; reflexivity|]. vm_compute. reflexivity.
    + split; [vm_compute; discriminate|].
      intros g Hg. vm_compute in Hg. destruct Hg as [<- | []].
      eexists. split; [left; reflexivity|]. vm_compute. reflexivity.
  - vm_compute. reflexivity.
Defined.

End ResolverProperties.

Section OrderIndependence.

Lemma formFieldIdSet_perm form fields' logics' :
  Permutation (default [] (form_fields form)) fields' ->
  formFieldIdSet (mkForm (form_id form) (Some fields') logics') = formFieldIdSet form.
Proof.
  intros Hp. unfold formFieldIdSet. simpl. apply set_eq. intros x.
  rewrite !elem_of_list_to_set, !list_elem_of_In, !in_map_iff.
  split; intros (fld & E & Hin); exists fld; split; auto.
  - eapply Permutation_in; [symmetry; exact Hp | exact Hin].
  - eapply Permutation_in; [exact Hp | exact Hin].
Qed.

(** X3: the visible set does not depend on the order in which the form lists
    its fields, nor on the order in which it lists its logic units. *)
Theorem getVisibleFieldIds_order_independent submission form fields' logics' :
  Permutation (default [] (form_fields form)) fields' ->
  Permutation (default [] (form_logics form)) logics' ->
  getVisibleFieldIds submission (mkForm (form_id form) (Some fields') (Some logics'))
  = getVisibleFieldIds submission form.
Proof.
  intros Hf Hl.
  pose proof (formFieldIdSet_perm form fields' (Some logics') Hf) as Hids.
  apply resolver_ext; [exact Hids|].
  intros V id Hid. apply showable_same_groups; [exact Hid | now rewrite <- Hids |].
  intros g. rewrite !In_groupsShowing, Hids. simpl form_logics. simpl default.
  split; intros (u & Hu & Hrest); exists u; (split; [|exact Hrest]).
  - eapply Permutation_in; [symmetry; exact Hl | exact Hu].
  - eapply Permutation_in; [exact Hl | exact Hu].
Qed.

Lemma getVisibleFieldIds_order_independent_witness :
  getVisibleFieldIds (Samples.answers "Option A" "1")
    (mkForm (Some "f1")
            (Some [ mkField "e1" (BasicField.Other "email");
                    mkField "n1" BasicField.Number;
                    mkField "d1" BasicField.Dropdown ])
            (Some [Samples.blockBig; Samples.showE1]))
  = getVisibleFieldIds (Samples.answers "Option A" "1") Samples.form3.
Proof.
  apply (getVisibleFieldIds_order_independent _ Samples.form3).
  - simpl. apply (Permutation_cons_app [_; _] []). reflexivity.
  - simpl. apply perm_swap.
Defined.

Lemma filter_filter_guard {A} (p q : A -> bool) l :
  List.filter (fun x => p x && q x) (List.filter p l)
  = List.filter (fun x => p x && q x) l.
Proof.
  induction l as [|x l IH]; [reflexivity|].
  simpl. destruct (p x) eqn:E; simpl; rewrite ?E; simpl; [|exact IH].
  destruct (q x); now rewrite IH.
Qed.

(** X4: units of type PreventSubmit have no part in visibility, and units of
    type ShowFields have no part in the gate once the visible set is given. *)
Theorem logic_types_are_separate submission form (V : FieldIdSet) :
  groupLogicUnitsByField
    (withLogics form (List.filter isShowFieldsLogic (default [] (form_logics form))))
  = groupLogicUnitsByField form
  /\ getVisibleFieldIds submission
       (withLogics form (List.filter isShowFieldsLogic (default [] (form_logics form))))
     = getVisibleFieldIds submission form
  /\ getLogicUnitPreventingSubmit submission
       (withLogics form (List.filter isPreventSubmitLogic (default [] (form_logics form))))
       (Some V)
     = getLogicUnitPreventingSubmit submission form (Some V).
Proof.
  assert (Hindex :
    groupLogicUnitsByField
      (withLogics form (List.filter isShowFieldsLogic (default [] (form_logics form))))
    = groupLogicUnitsByField form).
  { apply map_eq. intros id.
    rewrite !groupLogicUnitsByField_lookup, formFieldIdSet_withLogics.
    rewrite groupsShowing_withLogics, flat_map_filter_guard. unfold groupsShowing.
    destruct (bool_decide _); [|reflexivity].
    erewrite flat_map_ext; [reflexivity|].
    intros u. unfold retainedUnit. now destruct (isShowFieldsLogic u). }
  split; [exact Hindex|]. split.
  - unfold getVisibleFieldIds, getVisibleFieldIdsWithin. rewrite Hindex. reflexivity.
  - unfold getLogicUnitPreventingSubmit, getPreventSubmitConditions.
    rewrite formFieldIdSet_withLogics. simpl form_logics. simpl default.
    f_equal.
    apply (filter_filter_guard isPreventSubmitLogic
             (fun u => allConditionsExist (conditions u) (formFieldIdSet form))).
Qed.

End OrderIndependence.

Section Answers.

Lemma find_ext_in {A} (p q : A -> bool) l :
  (forall x, In x l -> p x = q x) -> List.find p l = List.find q l.
Proof.
  induction l as [|x l IH]; intros H; simpl; [reflexivity|].
  rewrite <- (H x) by now left. destruct (p x); [reflexivity|].
  apply IH. intros y Hy. apply H. now right.
Qed.

Lemma isLogicUnitSatisfied_ext s1 s2 group (V : FieldIdSet) :
  (forall c, In c group ->
     findConditionField s1 (field c) = findConditionField s2 (field c)) ->
  isLogicUnitSatisfied s1 group V = isLogicUnitSatisfied s2 group V.
Proof.
  intros H. unfold isLogicUnitSatisfied.
  induction group as [|c group IH]; [reflexivity|].
  simpl. rewrite (H c) by now left. f_equal. apply IH.
  intros c' Hc'. apply H. now right.
Qed.

(** The resolver and the gate read the answers only through the lookup of the
    ids of the form's fields. *)
Lemma answers_read_by_id s1 s2 form optVisible :
  (forall id, id ∈ formFieldIdSet form ->
     findConditionField s1 id = findConditionField s2 id) ->
  getVisibleFieldIds s1 form = getVisibleFieldIds s2 form
  /\ getLogicUnitPreventingSubmit s1 form optVisible
     = getLogicUnitPreventingSubmit s2 form optVisible.
Proof.
  intros Hagree.
  assert (Hvis : getVisibleFieldIds s1 form = getVisibleFieldIds s2 form).
  { apply resolver_ext; [reflexivity|]. intros V id Hid.
    rewrite !showable_groups by exact Hid.
    assert (Hsat : forall g, In g (groupsShowing form id) ->
              (groupSatisfied s1 V g <-> groupSatisfied s2 V g)).
    { intros g Hg. apply In_groupsShowing in Hg as (u & _ & _ & Ha & _ & ->).
      rewrite <- !isLogicUnitSatisfied_iff.
      rewrite (isLogicUnitSatisfied_ext s1 s2); [reflexivity|].
      intros c Hc. apply Hagree, Ha, Hc. }
    split; (intros [H | (g & Hg & Hs)]; [now left|]); right; exists g;
      (split; [exact Hg|]); now apply (Hsat g Hg). }
  split; [exact Hvis|].
  unfold getLogicUnitPreventingSubmit. rewrite Hvis.
  apply find_ext_in. intros u Hu.
  unfold getPreventSubmitConditions in Hu. apply filter_In in Hu as [_ Hu].
  apply andb_true_iff in Hu as [_ Ha].
  apply isLogicUnitSatisfied_ext. intros c Hc.
  apply Hagree. now apply (proj1 (allConditionsExist_true _ _) Ha).
Qed.

(** X5: answers whose id is not the id of a field of the form are never
    consulted: dropping them changes neither the visible set nor the unit that
    blocks the submission. *)
Theorem answers_to_unknown_fields_are_ignored submission form optVisible :
  getVisibleFieldIds
    (List.filter (fun f => bool_decide (_id f ∈ formFieldIdSet form)) submission) form
  = getVisibleFieldIds submission form
  /\ getLogicUnitPreventingSubmit
       (List.filter (fun f => bool_decide (_id f ∈ formFieldIdSet form)) submission)
       form optVisible
     = getLogicUnitPreventingSubmit submission form optVisible.
Proof.
  apply answers_read_by_id. intros id Hid.
  unfold findConditionField. rewrite find_filter. apply find_ext_in.
  intros f _. destruct (String.eqb_spec (_id f) id) as [->|]; [|apply andb_false_r].
  now rewrite (bool_decide_eq_true_2 _ Hid).
Qed.

(** Under distinct ids, the lookup finds the one entry with the id. *)
Lemma findConditionField_unique submission id f :
  NoDup (map _id submission) ->
  (findConditionField submission id = Some f <-> In f submission /\ _id f = id).
Proof.
  intros Hnd. split.
  - intros H. split; [|now apply findConditionField_id in H].
    unfold findConditionField in H. now apply find_some in H.
  - induction submission as [|x l IH]; intros [Hin Hid]; [destruct Hin|].
    apply NoDup_cons in Hnd as [Hx Hnd]. unfold findConditionField. simpl.
    destruct (String.eqb_spec (_id x) id) as [Ex|Ex].
    + destruct Hin as [->|Hin]; [reflexivity|].
      exfalso. apply Hx. apply list_elem_of_In, in_map_iff. exists f.
      split; [congruence | exact Hin].
    + destruct Hin as [->|Hin]; [contradiction|]. now apply IH.
Qed.

(** X6: when no two answers share an id, the order of the answers does not
    matter to the visible set nor to the gate. *)
Theorem answer_order_is_irrelevant s1 s2 form optVisible :
  NoDup (map _id s1) -> Permutation s1 s2 ->
  getVisibleFieldIds s1 form = getVisibleFieldIds s2 form
  /\ getLogicUnitPreventingSubmit s1 form optVisible
     = getLogicUnitPreventingSubmit s2 form optVisible.
Proof.
  intros Hnd Hp. apply answers_read_by_id. intros id _.
  assert (Hnd2 : NoDup (map _id s2)).
  { now rewrite <- (Permutation_map _id Hp). }
  destruct (findConditionField s1 id) as [f|] eqn:E1.
  - symmetry. apply findConditionField_unique; [exact Hnd2|].
    apply findConditionField_unique in E1 as [Hin Hid]; [|exact Hnd].
    split; [|exact Hid]. eapply Permutation_in; eassumption.
  - destruct (findConditionField s2 id) as [f|] eqn:E2; [|reflexivity].
    apply findConditionField_unique in E2 as [Hin Hid]; [|exact Hnd2].
    assert (E : findConditionField s1 id = Some f).
    { apply findConditionField_unique; [exact Hnd|]. split; [|exact Hid].
      eapply Permutation_in; [symmetry; exact Hp | exact Hin]. }
    congruence.
Qed.

Lemma answer_order_is_irrelevant_witness :
  getVisibleFieldIds (rev (Samples.answers "Option A" "150")) Samples.form3
  = getVisibleFieldIds (Samples.answers "Option A" "150") Samples.form3.
Proof.
  destruct (answer_order_is_irrelevant
              (rev (Samples.answers "Option A" "150"))
              (Samples.answers "Option A" "150") Samples.form3 None) as [H _].
  - simpl. repeat constructor; rewrite ?elem_of_cons, ?elem_of_nil; intuition discriminate.
  - simpl. apply perm_swap.
  - exact H.
Defined.

Lemma find_append {A} (p : A -> bool) l r :
  List.find p (l ++ r) = match List.find p l with
                         | Some x => Some x
                         | None => List.find p r
                         end.
Proof.
  induction l as [|x l IH]; simpl; [reflexivity|]. now destruct (p x).
Qed.

(** X7: when several answers share an id, only the first one counts: answers
    appended after the others under ids already answered change nothing. *)
Theorem later_duplicate_answers_are_ignored submission extra form optVisible :
  (forall f, In f extra -> exists f0, In f0 submission /\ _id f0 = _id f) ->
  getVisibleFieldIds (submission ++ extra) form = getVisibleFieldIds submission form
  /\ getLogicUnitPreventingSubmit (submission ++ extra) form optVisible
     = getLogicUnitPreventingSubmit submission form optVisible.
Proof.
  intros Hdup. apply answers_read_by_id. intros id _.
  unfold findConditionField. rewrite find_append.
  destruct (List.find _ submission) as [f|] eqn:E; [reflexivity|].
  apply find_none_iff. intros f Hf. destruct (Hdup f Hf) as (f0 & Hin & Hid).
  apply (find_none _ _ E) in Hin. now rewrite <- Hid.
Qed.

Lemma later_duplicate_answers_are_ignored_witness :
  getVisibleFieldIds
    (Samples.answers "Option B" "150"
     ++ [mkResponse "d1" BasicField.Dropdown None (Some (Samples.str "Option A")) None])
    Samples.form3
  = getVisibleFieldIds (Samples.answers "Option B" "150") Samples.form3.
Proof.
  destruct (later_duplicate_answers_are_ignored
              (Samples.answers "Option B" "150")
              [mkResponse "d1" BasicField.Dropdown None
                          (Some (Samples.str "Option A")) None]
              Samples.form3 None) as [H _]; [|exact H].
  intros f [<- | []]. eexists. split; [left; reflexivity | reflexivity].
Defined.

End Answers.

Section GateProperties.

Lemma blocks_mono submission form (V W : FieldIdSet) u :
  V ⊆ W -> blocks submission form V u = true -> blocks submission form W u = true.
Proof.
  intros Hsub H. apply blocks_iff in H as (Ht & Ha & Hs). apply blocks_iff.
  repeat split; auto. eapply groupSatisfied_mono; eassumption.
Qed.

(** X8: a unit without conditions applies unconditionally.  A PreventSubmit
    unit with an empty list of conditions makes the gate block every
    submission, and a ShowFields unit with an empty list of conditions makes
    each of its targets that is a field of the form visible. *)
Theorem units_without_conditions_always_apply submission form optVisible u :
  In u (default [] (form_logics form)) ->
  conditions u = [] ->
  (logicType u = LogicType.PreventSubmit ->
   getLogicUnitPreventingSubmit submission form optVisible <> None)
  /\ (logicType u = LogicType.ShowFields ->
      forall t, In t (show u) -> t ∈ formFieldIdSet form ->
                t ∈ getVisibleFieldIds submission form).
Proof.
  intros Hu Hc. split.
  - intros Ht. rewrite getLogicUnitPreventingSubmit_find, find_none_iff.
    intros Hnone. specialize (Hnone u Hu).
    apply blocks_false_iff in Hnone. apply Hnone.
    split; [exact Ht|]. rewrite Hc. split; intros c [].
  - intros Ht t Hshow Hid.
    destruct (resolver_lfp submission form) as (_ & Hclosed & _).
    apply Hclosed; [exact Hid|]. apply showable_groups; [exact Hid|]. right.
    exists []. split; [|intros c []].
    apply In_groupsShowing. exists u. rewrite Hc.
    repeat split; auto. intros c [].
Qed.

Lemma units_without_conditions_always_apply_witness :
  getLogicUnitPreventingSubmit []
    (mkForm None (Some Samples.fields3)
            (Some [Samples.showE1; mkLogic LogicType.PreventSubmit [] []]))
    None <> None.
Proof.
  apply (units_without_conditions_always_apply [] _ None
           (mkLogic LogicType.PreventSubmit [] []));
    [right; left; reflexivity | reflexivity | reflexivity].
Defined.

(** X9: the unit that the gate returns is a PreventSubmit unit of the form,
    each of whose conditions is on a visible field of the form with an answer
    that fulfils it.  Hence, without visible fields or without answers, only
    a unit without conditions can block. *)
Theorem blocking_unit_has_visible_answered_subjects submission form optVisible u :
  getLogicUnitPreventingSubmit submission form optVisible = Some u ->
  In u (default [] (form_logics form))
  /\ logicType u = LogicType.PreventSubmit
  /\ (forall c, In c (conditions u) ->
        field c ∈ default (getVisibleFieldIds submission form) optVisible
        /\ field c ∈ formFieldIdSet form
        /\ exists f, In f submission /\ _id f = field c
                     /\ isConditionFulfilled f c = true)
  /\ (optVisible = Some ∅ \/ submission = [] -> conditions u = []).
Proof.
  rewrite getLogicUnitPreventingSubmit_find. intros H.
  apply find_some in H as [Hin Hb]. apply blocks_iff in Hb as (Ht & Ha & Hs).
  assert (Hsubj : forall c, In c (conditions u) ->
            field c ∈ default (getVisibleFieldIds submission form) optVisible
            /\ field c ∈ formFieldIdSet form
            /\ exists f, In f submission /\ _id f = field c
                         /\ isConditionFulfilled f c = true).
  { intros c Hc. destruct (Hs c Hc) as (f & Hf & Hv & Hok).
    split; [exact Hv|]. split; [now apply Ha|]. exists f.
    split; [|split; [now apply findConditionField_id in Hf | exact Hok]].
    unfold findConditionField in Hf. now apply find_some in Hf. }
  split; [exact Hin|]. split; [exact Ht|]. split; [exact Hsubj|].
  intros Hempty. destruct (conditions u) as [|c cs]; [reflexivity|]. exfalso.
  destruct (Hsubj c (or_introl eq_refl)) as (Hv & _ & f & Hf & _).
  destruct Hempty as [-> | ->]; [|destruct Hf].
  simpl in Hv. now apply elem_of_empty in Hv.
Qed.

Lemma blocking_unit_has_visible_answered_subjects_witness :
  "n1" ∈ getVisibleFieldIds (Samples.answers "Option A" "150") Samples.form3.
Proof.
  destruct (blocking_unit_has_visible_answered_subjects
              (Samples.answers "Option A" "150") Samples.form3 None Samples.blockBig)
    as (_ & _ & Hsubj & _); [vm_compute; reflexivity|].
  apply (Hsubj (mkCondition "n1" LogicConditionState.Gte (Samples.num 100))).
  left. reflexivity.
Defined.

(** X10: showing more fields never unblocks a submission: if the gate blocks
    under a visible set, it blocks under every larger one. *)
Theorem gate_blocks_under_larger_visible_set submission form (V W : FieldIdSet) :
  V ⊆ W ->
  getLogicUnitPreventingSubmit submission form (Some V) <> None ->
  getLogicUnitPreventingSubmit submission form (Some W) <> None.
Proof.
  intros Hsub. rewrite !getLogicUnitPreventingSubmit_find, !find_none_iff.
  simpl default. intros HV HW. apply HV. intros u Hu.
  destruct (blocks submission form V u) eqn:E; [|reflexivity].
  rewrite <- (HW u Hu). symmetry. eapply blocks_mono; eassumption.
Qed.

Lemma gate_blocks_under_larger_visible_set_witness :
  getLogicUnitPreventingSubmit (Samples.answers "Option A" "150") Samples.form3
                               (Some {["n1"; "d1"]}) <> None.
Proof.
  apply (gate_blocks_under_larger_visible_set _ _ {["n1"]}).
  - intros x Hx. apply elem_of_union. now left.
  - vm_compute. discriminate.
Defined.

End GateProperties.

Section EvaluatorProperties.

Import Js.

(** X11: without ["Others"] among the condition's values, [Equal] and
    [Either] are one test: the string form of the answer is among the string
    forms of the values, for a subject of a table field type whose answer
    passes the emptiness guard. *)
Theorem equal_is_membership_of_strings f c :
  state c = LogicConditionState.Equal \/ state c = LogicConditionState.Either ->
  ~ In "Others" (map ToString (concat (value c))) ->
  (isConditionFulfilled f c = true
   <-> isLogicField f = true
       /\ rejectedValue (getCurrentValue f) = false
       /\ In (ToString (getCurrentValue f)) (map ToString (concat (value c)))).
Proof.
  intros Hst Hno.
  assert (Hidx : (indexOf (map ToString (concat (value c))) "Others" >? -1)%Z = false).
  { apply not_true_is_false. intros H. now apply indexOf_found in H. }
  split.
  - intros H. destruct (isConditionFulfilled_true_guards _ _ H) as [Hl Hr].
    split; [exact Hl|]. split; [exact Hr|].
    rewrite (isConditionFulfilled_passed _ _ Hl Hr) in H.
    apply indexOf_found. destruct Hst as [E | E]; rewrite E in H; cbv zeta in H;
      rewrite Hidx in H; exact H.
  - intros (Hl & Hr & Hin). rewrite (isConditionFulfilled_passed _ _ Hl Hr).
    apply indexOf_found in Hin.
    destruct Hst as [E | E]; rewrite E; cbv zeta; rewrite Hidx; exact Hin.
Qed.

Lemma equal_is_membership_of_strings_witness :
  isConditionFulfilled
    (mkResponse "n1" BasicField.Number None (Some (JsString "5")) None)
    (mkCondition "n1" LogicConditionState.Equal (JsNum (Finite 5 0))) = true.
Proof.
  apply (equal_is_membership_of_strings
           (mkResponse "n1" BasicField.Number None (Some (JsString "5")) None)
           (mkCondition "n1" LogicConditionState.Equal (JsNum (Finite 5 0)))).
  - left. reflexivity.
  - intros [E | []]. discriminate.
  - split; [reflexivity|]. split; [reflexivity|]. left. reflexivity.
Defined.

(** X12: the match on the prefix ["Others: "] is not tied to Radio fields: on
    a subject of any table field type, an [Equal] or [Either] condition with
    ["Others"] among its values is fulfilled by every string answer that
    starts with ["Others: "]. *)
Theorem others_prefix_matches_on_any_logic_field f c s :
  isLogicField f = true ->
  state c = LogicConditionState.Equal \/ state c = LogicConditionState.Either ->
  In "Others" (map ToString (concat (value c))) ->
  getCurrentValue f = JsString s ->
  startsWith s "Others: " = true ->
  isConditionFulfilled f c = true.
Proof.
  intros Hl Hst Hin Hcur Hp.
  assert (Hne : s <> EmptyString).
  { eapply prefix_nonempty; [|exact Hp]. discriminate. }
  assert (Hr : rejectedValue (getCurrentValue f) = false).
  { rewrite Hcur. simpl. now apply String.eqb_neq. }
  rewrite (isConditionFulfilled_passed _ _ Hl Hr), Hcur.
  apply indexOf_found in Hin.
  destruct Hst as [-> | ->]; cbv zeta; rewrite Hin; simpl ToString;
    rewrite Hp; apply orb_true_r.
Qed.

Lemma others_prefix_matches_on_any_logic_field_witness :
  isConditionFulfilled
    (mkResponse "d1" BasicField.Dropdown None (Some (JsString "Others: none")) None)
    (mkCondition "d1" LogicConditionState.Either
                 (JsArray [JsString "A"; JsString "Others"])) = true.
Proof.
  apply (others_prefix_matches_on_any_logic_field _ _ "Others: none");
    [reflexivity | right; reflexivity | right; left; reflexivity
    | reflexivity | reflexivity].
Defined.

(** X13: the sentinel ["radioButtonOthers"] stands for ["Others"] on Radio
    fields only: on a subject of another field type it fulfils an [Equal] or
    [Either] condition only if it is literally among the condition's values. *)
Theorem others_sentinel_needs_radio f c :
  fieldType f <> BasicField.Radio ->
  state c = LogicConditionState.Equal \/ state c = LogicConditionState.Either ->
  getCurrentValue f = JsString "radioButtonOthers" ->
  ~ In "radioButtonOthers" (map ToString (concat (value c))) ->
  isConditionFulfilled f c = false.
Proof.
  intros Hft Hst Hcur Hno. apply not_true_is_false. intros H.
  destruct (isConditionFulfilled_true_guards _ _ H) as [Hl Hr].
  rewrite (isConditionFulfilled_passed _ _ Hl Hr), Hcur in H.
  rewrite (bool_decide_eq_false_2 _ Hft) in H. simpl ToString in H.
  assert (Hidx : (indexOf (map ToString (concat (value c))) "radioButtonOthers" >? -1)%Z
                 = false).
  { apply not_true_is_false. intros E. now apply indexOf_found in E. }
  destruct Hst as [E | E]; rewrite E in H; cbv zeta in H; rewrite Hidx in H;
    destruct (indexOf _ "Others" >? -1)%Z; discriminate.
Qed.

Lemma others_sentinel_needs_radio_witness :
  isConditionFulfilled
    (mkResponse "d1" BasicField.Dropdown (Some (JsString "radioButtonOthers")) None None)
    (mkCondition "d1" LogicConditionState.Equal (JsString "Others")) = false.
Proof.
  apply others_sentinel_needs_radio;
    [discriminate | left; reflexivity | reflexivity |].
  intros [E | []]. discriminate.
Defined.

Lemma num_le_total a b :
  a <> NaN -> b <> NaN -> num_le a b = true \/ num_le b a = true.
Proof.
  intros Ha Hb. destruct a as [|[]|m1 e1], b as [|[]|m2 e2]; simpl; auto;
    try congruence.
  rewrite (Z.min_comm e2 e1).
  destruct (Z.leb_spec (scale m1 e1 (Z.min e1 e2)) (scale m2 e2 (Z.min e1 e2)));
    [now left|].
  right. apply Z.leb_le. lia.
Qed.

Lemma num_le_NaN a b : a = NaN \/ b = NaN -> num_le a b = false.
Proof. intros [-> | ->]; [reflexivity|]. now destruct a as [|[]|]. Qed.

(** X14: [Lte] and [Gte] compare numbers.  When the answer or the condition
    value does not coerce to a number, neither is fulfilled; when both do, at
    least one of the two is, for a subject of a table field type whose answer
    passes the emptiness guard. *)
Theorem lte_gte_compare_numbers f (v : JsValue) id :
  (ToNumber (getCurrentValue f) = NaN \/ ToNumber v = NaN ->
   isConditionFulfilled f (mkCondition id LogicConditionState.Lte v) = false
   /\ isConditionFulfilled f (mkCondition id LogicConditionState.Gte v) = false)
  /\ (isLogicField f = true ->
      rejectedValue (getCurrentValue f) = false ->
      ToNumber (getCurrentValue f) <> NaN -> ToNumber v <> NaN ->
      isConditionFulfilled f (mkCondition id LogicConditionState.Lte v) = true
      \/ isConditionFulfilled f (mkCondition id LogicConditionState.Gte v) = true).
Proof.
  split.
  - intros Hnan.
    destruct (isLogicField f) eqn:Hl;
      [|split; now apply isConditionFulfilled_not_logic_field].
    destruct (rejectedValue (getCurrentValue f)) eqn:Hr;
      [split; now apply isConditionFulfilled_rejected|].
    rewrite !(isConditionFulfilled_passed _ _ Hl Hr). simpl. unfold num_ge.
    split; apply num_le_NaN; tauto.
  - intros Hl Hr Ha Hb. rewrite !(isConditionFulfilled_passed _ _ Hl Hr). simpl.
    unfold num_ge. now apply num_le_total.
Qed.

Lemma lte_gte_compare_numbers_witness :
  isConditionFulfilled
    (mkResponse "n1" BasicField.Number None (Some (JsString "abc")) None)
    (mkCondition "n1" LogicConditionState.Gte (JsNum (Finite 5 0))) = false
  /\ (isConditionFulfilled
        (mkResponse "n1" BasicField.Decimal None (Some (JsString "1.5")) None)
        (mkCondition "n1" LogicConditionState.Lte (JsNum (Finite 5 0))) = true
      \/ isConditionFulfilled
           (mkResponse "n1" BasicField.Decimal None (Some (JsString "1.5")) None)
           (mkCondition "n1" LogicConditionState.Gte (JsNum (Finite 5 0))) = true).
Proof.
  split.
  - destruct (lte_gte_compare_numbers
                (mkResponse "n1" BasicField.Number None (Some (JsString "abc")) None)
                (JsNum (Finite 5 0)) "n1") as [Hnan _].
    apply Hnan. left. reflexivity.
  - destruct (lte_gte_compare_numbers
                (mkResponse "n1" BasicField.Decimal None (Some (JsString "1.5")) None)
                (JsNum (Finite 5 0)) "n1") as [_ Hnum].
    apply Hnum; [reflexivity | reflexivity | vm_compute; discriminate | discriminate].
Defined.

End EvaluatorProperties.

Section TableAndCheckboxProperties.

Import Js.

(** X15: on a Checkbox subject, [AnyOf] compares the options as multisets: the
    condition is fulfilled exactly when some candidate has the same [others]
    flag and lists the same options as the answer, each as many times, in any
    order. *)
Theorem anyOf_compares_options_as_multisets f id cands opts oth :
  fieldType f = BasicField.Checkbox ->
  getCurrentValue f = CheckboxConditionValue opts oth ->
  (isConditionFulfilled f
     (mkCondition id LogicConditionState.AnyOf
        (JsArray (map (fun cand => CheckboxConditionValue cand.1 cand.2) cands)))
   = true
   <-> exists cand : list string * bool,
         In cand cands /\ Permutation cand.1 opts /\ cand.2 = oth).
Proof.
  intros Hft Hv.
  assert (Hl : isLogicField f = true) by (unfold isLogicField; now rewrite Hft).
  assert (Hr : rejectedValue (getCurrentValue f) = false) by now rewrite Hv.
  rewrite (isConditionFulfilled_passed _ _ Hl Hr). simpl state.
  rewrite (bool_decide_eq_true_2 _ Hft).
  rewrite (proj2 (isLogicCheckboxCondition_iff _)) by (simpl; eauto).
  rewrite (proj2 (isCheckboxConditionValue_iff _)) by eauto.
  simpl andb. cbv iota. simpl value. simpl elements. rewrite Hv.
  rewrite existsb_exists. split.
  - intros (val & Hin & Heq).
    apply in_map_iff in Hin as (x & <- & Hin).
    apply in_map_iff in Hin as (cand & <- & Hin).
    rewrite !sortOptions_checkbox in Heq.
    apply isEqual_checkbox_values in Heq as [Ho Ht].
    exists cand. split; [exact Hin|]. split; [|now symmetry].
    apply sortStrings_eq_iff. now symmetry.
  - intros (cand & Hin & Hp & Ht).
    exists (sortOptions (CheckboxConditionValue cand.1 cand.2)). split.
    + apply in_map, in_map_iff. exists cand. auto.
    + rewrite !sortOptions_checkbox. apply isEqual_checkbox_values.
      split; [|now symmetry]. symmetry. now apply sortStrings_eq_iff.
Qed.

Lemma anyOf_compares_options_as_multisets_witness :
  isConditionFulfilled
    (mkResponse "c1" BasicField.Checkbox None None
                (Some (CheckboxConditionValue ["b"; "a"; "b"] true)))
    (mkCondition "c1" LogicConditionState.AnyOf
       (JsArray (map (fun cand : list string * bool =>
                        CheckboxConditionValue cand.1 cand.2)
                     [(["b"; "b"; "a"], true)]))) = true.
Proof.
  apply (anyOf_compares_options_as_multisets
           (mkResponse "c1" BasicField.Checkbox None None
                       (Some (CheckboxConditionValue ["b"; "a"; "b"] true)))
           "c1" [(["b"; "b"; "a"], true)] ["b"; "a"; "b"] true);
    [reflexivity | reflexivity |].
  exists (["b"; "b"; "a"], true). split; [left; reflexivity|].
  split; [|reflexivity]. simpl. apply perm_skip, perm_swap.
Defined.

(** X16: [Equal] and [Either] do not look inside objects.  A non-empty object
    as answer and an object among the condition's values both have the string
    form [[object Object]], so the condition is fulfilled whatever the options
    of either side. *)
Theorem equal_matches_any_two_objects f c o t o' t' :
  isLogicField f = true ->
  state c = LogicConditionState.Equal \/ state c = LogicConditionState.Either ->
  getCurrentValue f = JsObject o t ->
  isEmpty (JsObject o t) = false ->
  In (JsObject o' t') (concat (value c)) ->
  isConditionFulfilled f c = true.
Proof.
  intros Hl Hst Hcur Hne Hin.
  assert (Hr : rejectedValue (getCurrentValue f) = false).
  { rewrite Hcur. unfold rejectedValue. now rewrite Hne. }
  rewrite (isConditionFulfilled_passed _ _ Hl Hr), Hcur.
  assert (Hmem : In (ToString (JsObject o t)) (map ToString (concat (value c)))).
  { change (ToString (JsObject o t)) with (ToString (JsObject o' t')).
    now apply in_map. }
  destruct Hst as [-> | ->]; cbv zeta;
    destruct (indexOf _ "Others" >? -1)%Z;
    rewrite ?orb_true_iff; try left; apply indexOf_found;
    try (destruct (bool_decide _); [apply in_or_app; left|]); exact Hmem.
Qed.

Lemma equal_matches_any_two_objects_witness :
  isConditionFulfilled
    (mkResponse "c1" BasicField.Checkbox None None
                (Some (CheckboxConditionValue ["a"] false)))
    (mkCondition "c1" LogicConditionState.Equal
                 (JsArray [CheckboxConditionValue ["z"] true])) = true.
Proof.
  apply (equal_matches_any_two_objects _ _
           (Some (JsArray [JsString "a"])) (Some (JsBoolean false))
           (Some (JsArray [JsString "z"])) (Some (JsBoolean true)));
    [reflexivity | left; reflexivity | reflexivity | reflexivity
    | left; reflexivity].
Defined.

(** X17: every operator that the table offers for a field type can be
    fulfilled: for each pair of the table there are an answer and a condition
    value on which the evaluator returns [true]. *)
Theorem table_operators_are_satisfiable ft st :
  In st (getApplicableIfStates ft) ->
  exists f c, fieldType f = ft /\ state c = st /\ isConditionFulfilled f c = true.
Proof.
  intros H.
  assert (Hcases :
    (ft = BasicField.Checkbox /\ st = LogicConditionState.AnyOf)
    \/ (ft <> BasicField.Checkbox /\ LOGIC_MAP.has ft = true
        /\ st <> LogicConditionState.AnyOf)).
  { destruct ft; simpl in H; intuition (subst; auto; try discriminate). }
  destruct Hcases as [[-> ->] | (Hft & Hl & Hst)].
  - exists (mkResponse "q" BasicField.Checkbox None None
                       (Some (CheckboxConditionValue ["a"] false))),
           (mkCondition "q" LogicConditionState.AnyOf
                        (JsArray [CheckboxConditionValue ["a"] false])).
    repeat split.
  - exists (mkResponse "q" ft None (Some (JsString "1")) None),
           (mkCondition "q" st (JsString "1")).
    split; [reflexivity|]. split; [reflexivity|].
    rewrite isConditionFulfilled_passed; [|exact Hl | reflexivity].
    destruct st; try reflexivity. congruence.
Qed.

Lemma table_operators_are_satisfiable_witness :
  exists f c, fieldType f = BasicField.Rating
              /\ state c = LogicConditionState.Gte
              /\ isConditionFulfilled f c = true.
Proof.
  apply table_operators_are_satisfiable. right; right; left. reflexivity.
Defined.



(** X19: the two type guards accept exactly the intended shapes:
    [isCheckboxConditionValue] the objects with an array of strings as
    [options] and a boolean as [others], and [isLogicCheckboxCondition] the
    conditions whose value is an array of such objects, the empty array
    included and a single object outside any array excluded. *)
Theorem checkbox_guards_accept_exact_shapes :
  (forall v, isCheckboxConditionValue v = true
             <-> exists opts oth, v = CheckboxConditionValue opts oth)
  /\ (forall c, isLogicCheckboxCondition c = true
                <-> exists cands : list (list string * bool),
                      value c
                      = JsArray (map (fun cand => CheckboxConditionValue cand.1 cand.2)
                                     cands))
  /\ (forall id st, isLogicCheckboxCondition (mkCondition id st (JsArray [])) = true)
  /\ (forall id st opts oth,
        isLogicCheckboxCondition
          (mkCondition id st (CheckboxConditionValue opts oth)) = false).
Proof.
  split; [exact isCheckboxConditionValue_iff|].
  split; [exact isLogicCheckboxCondition_iff|].
  split; reflexivity.
Qed.

End TableAndCheckboxProperties.

Section FormEdges.

(** X20: a form without [form_logics] has an empty index, writes no
    diagnostic, shows every field and blocks nothing; a form without
    [form_fields] has an empty index and shows nothing. *)
Theorem forms_with_missing_parts submission form optVisible :
  (form_logics form = None ->
   groupLogicUnitsByField_io form = (∅, [])
   /\ getVisibleFieldIds submission form = formFieldIdSet form
   /\ getLogicUnitPreventingSubmit submission form optVisible = None)
  /\ (form_fields form = None ->
      groupLogicUnitsByField form = ∅
      /\ getVisibleFieldIds submission form = ∅).
Proof.
  destruct (resolver_lfp submission form) as (Hj & Hc & _). split.
  - intros Hl.
    assert (Hio : groupLogicUnitsByField_io form = (∅, [])).
    { rewrite groupLogicUnitsByField_io_unfold, Hl. reflexivity. }
    split; [exact Hio|]. split.
    + apply set_eq. intros id. split; [apply Hj|].
      intros Hid. apply Hc; [exact Hid|]. left.
      unfold groupLogicUnitsByField. rewrite Hio. apply lookup_empty.
    + unfold getLogicUnitPreventingSubmit, getPreventSubmitConditions.
      rewrite Hl. reflexivity.
  - intros Hf.
    assert (Hids : formFieldIdSet form = ∅).
    { unfold formFieldIdSet. rewrite Hf. reflexivity. }
    split.
    + apply map_eq. intros id. rewrite groupLogicUnitsByField_lookup, Hids.
      rewrite lookup_empty. reflexivity.
    + apply set_eq. intros id. split; [|intros H; now apply elem_of_empty in H].
      intros H. rewrite <- Hids. now apply Hj.
Qed.

Lemma forms_with_missing_parts_witness :
  getVisibleFieldIds [] (mkForm None (Some Samples.fields3) None)
  = formFieldIdSet (mkForm None (Some Samples.fields3) None)
  /\ getVisibleFieldIds (Samples.answers "Option A" "1")
       (mkForm None None (Some [Samples.showE1])) = ∅.
Proof.
  split.
  - destruct (forms_with_missing_parts [] (mkForm None (Some Samples.fields3) None) None)
      as [H _].
    now destruct (H eq_refl) as (_ & Hv & _).
  - destruct (forms_with_missing_parts (Samples.answers "Option A" "1")
                (mkForm None None (Some [Samples.showE1])) None) as [_ H].
    now destruct (H eq_refl) as [_ Hv].
Defined.

(** X21: adding a field to the form hides no field that was visible, provided
    no ShowFields unit has a condition on the id of the added field.  (A unit
    with such a condition is dropped before the field exists and retained
    afterwards, which can turn an unconditional target into a conditional
    one.) *)
Theorem adding_a_field_keeps_fields_visible submission form fld :
  (forall u c, In u (default [] (form_logics form)) ->
               logicType u = LogicType.ShowFields ->
               In c (conditions u) -> field c <> field_id fld) ->
  getVisibleFieldIds submission form
  ⊆ getVisibleFieldIds submission
      (mkForm (form_id form) (Some (default [] (form_fields form) ++ [fld]))
              (form_logics form)).
Proof.
  intros Hfresh.
  set (form' := mkForm (form_id form) (Some (default [] (form_fields form) ++ [fld]))
                       (form_logics form)).
  assert (Hids : forall id, id ∈ formFieldIdSet form' <->
                            id ∈ formFieldIdSet form \/ id = field_id fld).
  { intros id. unfold formFieldIdSet, form'. simpl.
    rewrite map_app, list_to_set_app, elem_of_union. simpl.
    rewrite elem_of_union, elem_of_singleton.
    split; [intros [H | [H | H]] | intros [H | H]]; auto.
    now apply elem_of_empty in H. }
  destruct (resolver_lfp submission form) as (_ & _ & Hl).
  destruct (resolver_lfp submission form') as (_ & Hc' & _).
  apply Hl. intros id Hid Hs.
  assert (Hid' : id ∈ formFieldIdSet form') by (apply Hids; now left).
  apply Hc'; [exact Hid'|].
  apply (showable_same_groups submission form form'); auto.
  intros g. rewrite !In_groupsShowing.
  split; intros (u & Hu & Ht & Ha & Hrest); exists u;
    (split; [exact Hu|]); (split; [exact Ht|]); (split; [|exact Hrest]).
  - intros c Hc. apply Hids. left. now apply Ha.
  - intros c Hc. destruct (proj1 (Hids _) (Ha c Hc)) as [H | H]; [exact H|].
    exfalso. exact (Hfresh u c Hu Ht Hc H).
Qed.

Lemma adding_a_field_keeps_fields_visible_witness :
  getVisibleFieldIds (Samples.answers "Option A" "1") Samples.form3
  ⊆ getVisibleFieldIds (Samples.answers "Option A" "1")
      (mkForm (Some "f1") (Some (Samples.fields3 ++ [mkField "t1" (BasicField.Other "table")]))
              (Some [Samples.showE1; Samples.blockBig])).
Proof.
  apply (adding_a_field_keeps_fields_visible _ Samples.form3
           (mkField "t1" (BasicField.Other "table"))).
  intros u c [<- | [<- | []]] Ht [<- | []]; discriminate.
Defined.

End FormEdges.

(** ** The Checkbox2 component *)

Section Checkbox2Properties.

Import Checkbox2.

Lemma lastReported_app a b :
  lastReported (a ++ b) = match lastReported b with
                          | Some v => Some v
                          | None => lastReported a
                          end.
Proof.
  induction a as [|[|v] a IH]; simpl.
  - now destruct (lastReported b).
  - exact IH.
  - rewrite IH. destruct (lastReported b); [reflexivity|].
    now destruct (lastReported a).
Qed.

Lemma run_snoc onChange st events ev :
  run onChange st (events ++ [ev]) =
  let r := run onChange st events in
  let r' := handle onChange r.1 ev in
  (r'.1, r.2 ++ r'.2).
Proof.
  revert st. induction events as [|e events IH]; intros st; simpl.
  - now rewrite app_nil_r.
  - rewrite IH. simpl. now rewrite app_assoc.
Qed.

(** Each handler tells the parent the value that is in effect afterwards. *)
Lemma handle_reports st ev :
  lastReported (handle true st ev).2 = Some (effectiveValue (handle true st ev).1).
Proof.
  destruct st as [checked text], ev as [[]|value]; simpl; try reflexivity.
  unfold effectiveValue. simpl.
  destruct (String.eqb_spec value EmptyString) as [->|Hne]; simpl.
  - now destruct checked.
  - now destruct checked.
Qed.

(** X22: after every event the parent holds the value in effect: the last
    value passed to [onChange] is the text of the input when the box is
    checked, and the empty string when it is not. *)
Theorem parent_holds_the_value_in_effect st events :
  events <> [] ->
  lastReported (run true st events).2
  = Some (effectiveValue (run true st events).1).
Proof.
  intros Hne. destruct (exists_last Hne) as (front & ev & ->).
  rewrite run_snoc. cbv zeta. simpl fst. simpl snd.
  rewrite lastReported_app, handle_reports. reflexivity.
Qed.

Lemma parent_holds_the_value_in_effect_witness :
  lastReported
    (run true initialState
         [InputChange "abc"; CheckboxChange false; CheckboxChange true]).2
  = Some "abc".
Proof.
  apply (parent_holds_the_value_in_effect initialState
           [InputChange "abc"; CheckboxChange false; CheckboxChange true]).
  discriminate.
Defined.

(** X23: the events of the checkbox never touch the text: unchecking the box
    does not clear the input, so checking it again reports the text typed
    before; and an event of the input with a non-empty text leaves the box
    checked. *)
Theorem checkbox_events_keep_the_text onChange st events :
  (forallb isCheckboxEvent events = true ->
   inputValue (run onChange st events).1 = inputValue st)
  /\ (forall value, value <> EmptyString ->
        (run onChange st (events ++ [InputChange value])).1 = mkState true value).
Proof.
  split.
  - revert st. induction events as [|[checked|value] events IH]; intros st H;
      simpl in *; [reflexivity | | discriminate].
    rewrite IH by exact H. now destruct checked.
  - intros value Hne. rewrite run_snoc. cbv zeta. simpl.
    apply String.eqb_neq in Hne. rewrite Hne. simpl.
    now destruct (isCheckboxChecked _).
Qed.

Lemma checkbox_events_keep_the_text_witness :
  inputValue
    (run true (mkState true "abc") [CheckboxChange false; CheckboxChange true]).1
  = "abc".
Proof.
  destruct (checkbox_events_keep_the_text true (mkState true "abc")
              [CheckboxChange false; CheckboxChange true]) as [H _].
  now apply H.
Defined.

End Checkbox2Properties.

(** ** The resolver on its own output and on no answers *)

Section ResolverEdges.

Lemma whileChangesMade_exit fuel submission index fields (V R : FieldIdSet) n :
  whileChangesMade fuel submission index fields V = Some (R, n) ->
  sweep submission index fields R = (R, false).
Proof.
  revert V R n. induction fuel as [|fuel IH]; intros V R n; [discriminate|].
  simpl. destruct (sweep submission index fields V).2 eqn:Hflag.
  - destruct (whileChangesMade fuel _ _ _ _) as [[R' n']|] eqn:E; [|discriminate].
    intros [= <- <-]. eapply IH, E.
  - intros [= <- <-]. rewrite (sweep_stable _ _ _ _ Hflag).
    pose proof (sweep_stable _ _ _ _ Hflag) as Hst.
    destruct (sweep submission index fields V) as [W b]. simpl in *. congruence.
Qed.

(** X24: the set returned by the resolver is stable: one more sweep over the
    fields of the form, started on that set, adds nothing and leaves the flag
    [changesMade] down. *)
Theorem resolver_output_is_stable submission form :
  sweep submission (groupLogicUnitsByField form) (default [] (form_fields form))
        (getVisibleFieldIds submission form)
  = (getVisibleFieldIds submission form, false).
Proof.
  destruct (getVisibleFieldIds_run submission form) as (n & Hrun & _).
  unfold getVisibleFieldIdsWithin in Hrun. eapply whileChangesMade_exit, Hrun.
Qed.

(** X25: with no answers at all, a field of the form is visible exactly when
    no retained unit targets it or some retained unit that targets it has no
    conditions. *)
Theorem visible_fields_without_answers form id :
  id ∈ getVisibleFieldIds [] form
  <-> id ∈ formFieldIdSet form
      /\ (groupsShowing form id = [] \/ In [] (groupsShowing form id)).
Proof.
  destruct (resolver_lfp [] form) as (Hj & Hc & _). split.
  - intros H. destruct (Hj id H) as [Hid Hs]. split; [exact Hid|].
    apply showable_groups in Hs as [Hnil | (g & Hg & Hsat)]; [now left | | exact Hid].
    right. destruct g as [|c g]; [exact Hg|].
    destruct (Hsat c (or_introl eq_refl)) as (f & Hf & _). discriminate.
  - intros [Hid Hg]. apply Hc; [exact Hid|]. apply showable_groups; [exact Hid|].
    destruct Hg as [Hnil | Hin]; [now left|]. right. exists []. split; [exact Hin|].
    intros c [].
Qed.

(** The proviso of X21 is needed: a target shown on the answer of a field
    that the form does not have is visible, and is hidden once that field is
    added. *)
Example adding_a_condition_subject_can_hide_a_field :
  let rule := mkLogic LogicType.ShowFields
                [mkCondition "x" LogicConditionState.Equal (Js.JsString "Yes")] ["t"] in
  let t := mkField "t" (BasicField.Other "textfield") in
  let x := mkField "x" BasicField.YesNo in
  "t" ∈ getVisibleFieldIds [] (mkForm None (Some [t]) (Some [rule]))
  /\ "t" ∉ getVisibleFieldIds [] (mkForm None (Some [t; x]) (Some [rule])).
Proof. split; vm_compute; [reflexivity | discriminate]. Qed.

End ResolverEdges.
